(** * voice_bridge.py: the RT-STT voice bridge

    A shallow embedding of [src/voice_bridge.py].  The bridge owns one
    speech-to-text client, turns its events into one JSON object per line
    on standard output, and shuts down on SIGINT/SIGTERM.

    What is modelled, and how:
    - Python exceptions are values of [exn]; [SystemExit] and
      [KeyboardInterrupt] derive from [BaseException] only, so
      [except Exception] lets them through while a bare [except:] does not.
    - The program is written in a small state-and-exception monad [M]
      over the record [world]: the global [client], the lines written to
      [sys.stdout], the log of operations invoked on the client, and the
      schedule of what the environment still has in store.
    - The RT-STT client is a black box: [beh op log] tells whether the
      call of [op], made after the calls in [log], raises.  A client
      object is true in [if client:], as objects are unless their class
      says otherwise.
    - A line on standard output is the dictionary handed to [json.dumps];
      the serialiser and the unbuffered write belong to the Python
      standard library and are taken to succeed.
    - Signal handlers run in the main thread, between two statements or
      inside a blocking call, and what a handler raises is raised at that
      place; the callbacks run on the client's threads.  Both are driven
      by the schedule, an interleaving of environment events with the
      steps of the main thread.  A signal that arrives during a call into
      the client is taken just before the call.
    - [select.select([], [], [])] without a timeout has nothing to wait
      for: it returns only when a signal handler raises.
    - The model starts once [signal.signal] has installed [cleanup] for
      SIGINT and SIGTERM, lines 29-30. *)

From Stdlib Require Import Floats.PrimFloat.
From stdpp Require Import gmap strings list pretty.

Set Default Proof Using "Type".
Local Open Scope string_scope.
Local Open Scope list_scope.

(** ** Values, events and messages *)

(** The Python values the bridge passes through to [json.dumps]. *)
Inductive pyval :=
  | PyNone
  | PyBool (b : bool)
  | PyInt (z : Z)
  | PyFloat (f : float)
  | PyStr (s : string).

(** Exceptions.  [Exc cls msg] is an instance of a subclass [cls] of
    [Exception] whose [str] is [msg]. *)
Inductive exn :=
  | SystemExit (code : Z)
  | KeyboardInterrupt
  | Exc (cls : string) (msg : string).

(** [isinstance(e, Exception)] *)
Definition is_Exception (e : exn) : bool :=
  match e with
  | Exc _ _ => true
  | SystemExit _ | KeyboardInterrupt => false
  end.

(** [str(e)] *)
Definition str (e : exn) : string :=
  match e with
  | SystemExit code => pretty code
  | KeyboardInterrupt => ""
  | Exc _ msg => msg
  end.

(** The exception of a failed attribute read [result.<attr>]. *)
Definition AttributeError (attr : string) : exn :=
  Exc "AttributeError" ("object has no attribute '" +:+ attr +:+ "'").

(** A transcription result is an object; only its attributes matter. *)
Abbreviation result := (gmap string pyval).

(** A dictionary literal: keys in insertion order. *)
Abbreviation message := (list (string * pyval)).

(** [d[k]] on a dictionary literal. *)
Fixpoint field (k : string) (d : message) : option pyval :=
  match d with
  | [] => None
  | (k', v) :: d' => if decide (k = k') then Some v else field k d'
  end.

Inductive signum := SIGINT | SIGTERM.

(** The operations of the client the bridge invokes. *)
Inductive client_op :=
  | Construct
  | Connect
  | OnTranscription
  | OnError
  | Subscribe
  | StartListening
  | StopListening
  | Disconnect.

Global Instance client_op_eq_dec : EqDecision client_op.
Proof. solve_decision. Defined.

(** What the environment does between two steps of the main thread. *)
Inductive env_event :=
  | EvStep                          (* the main thread runs its next statement *)
  | EvSignal (s : signum)           (* SIGINT or SIGTERM is delivered *)
  | EvTranscription (r : result)    (* the client delivers a result *)
  | EvError (e : exn).              (* the client reports an error; the bridge
                                       only takes its [str] *)

(** ** The world and the monad *)

Record world := World {
  client : bool;                    (* the global [client] is not None *)
  stdout : list message;            (* lines written, oldest first *)
  calls : list client_op;           (* client operations invoked, oldest first *)
  cb_transcription : bool;          (* a transcription callback is registered *)
  cb_error : bool;                  (* an error callback is registered *)
  escaped : list exn;               (* exceptions that left a callback *)
  sched : list env_event            (* environment events to come *)
}.

Definition initial (evs : list env_event) : world :=
  World false [] [] false false [] evs.

(** How a computation stops short of returning: an exception travels
    up, the thread stays blocked for good, or ([Diverged]) a loop was cut
    off by its fuel. *)
Inductive halt :=
  | Raise (e : exn)
  | Blocked
  | Diverged.

Inductive outcome (A : Type) :=
  | Ret (a : A)
  | Halt (h : halt).
Arguments Ret {A} a.
Arguments Halt {A} h.

Definition M (A : Type) : Type := world → outcome A * world.

Definition ret {A} (a : A) : M A := λ w, (Ret a, w).
Definition raise {A} (e : exn) : M A := λ w, (Halt (Raise e), w).

Definition bind {A B} (k : A → M B) (m : M A) : M B := λ w,
  match m w with
  | (Ret a, w') => k a w'
  | (Halt h, w') => (Halt h, w')
  end.

Global Instance M_ret : MRet M := @ret.
Global Instance M_bind : MBind M := @bind.

(** [try: body except: handler] catches every exception. *)
Definition try_except {A} (body : M A) (handler : exn → M A) : M A := λ w,
  match body w with
  | (Halt (Raise e), w') => handler e w'
  | r => r
  end.

(** [try: body except Exception as e: handler] lets [SystemExit] and
    [KeyboardInterrupt] through. *)
Definition try_except_Exception {A} (body : M A) (handler : exn → M A) : M A := λ w,
  match body w with
  | (Halt (Raise e), w') =>
      if is_Exception e then handler e w' else (Halt (Raise e), w')
  | r => r
  end.

(** [while True: body] *)
Fixpoint while_true (fuel : nat) (body : M unit) : M unit :=
  match fuel with
  | 0 => λ w, (Halt Diverged, w)
  | S fuel' => body ;; while_true fuel' body
  end.

(** [sys.stdout.write((json.dumps(d) + "\n").encode('utf-8'));
    sys.stdout.flush()] *)
Definition write_line (d : message) : M unit := λ w,
  (Ret (), World (client w) (stdout w ++ [d]) (calls w) (cb_transcription w)
                 (cb_error w) (escaped w) (sched w)).

(** Assignments to the global [client] and the registration flags. *)
Definition set_client (b : bool) : M unit := λ w,
  (Ret (), World b (stdout w) (calls w) (cb_transcription w)
                 (cb_error w) (escaped w) (sched w)).
Definition set_cb_transcription (b : bool) : M unit := λ w,
  (Ret (), World (client w) (stdout w) (calls w) b
                 (cb_error w) (escaped w) (sched w)).
Definition set_cb_error (b : bool) : M unit := λ w,
  (Ret (), World (client w) (stdout w) (calls w) (cb_transcription w)
                 b (escaped w) (sched w)).
Definition get_client : M bool := λ w, (Ret (client w), w).

(** Lines 33-34 put an unbuffered binary stream in place of [sys.stdout];
    the stream of the model is written through at once. *)
Definition reopen_stdout : M unit := ret ().

(** [sys.exit(code)] *)
Definition sys_exit (code : Z) : M unit := raise (SystemExit code).

(** ** The client, the handlers and [main] *)

Section bridge.

(** The behaviour of the RT-STT client: [beh op log] is the exception the
    call of [op] raises when [log] lists the calls made before it, and
    [None] when the call returns. *)
Variable beh : client_op → list client_op → option exn.

(** A call [client.<op>()]: it is logged, then returns or raises. *)
Definition call (op : client_op) : M unit := λ w,
  let w' := World (client w) (stdout w) (calls w ++ [op]) (cb_transcription w)
                  (cb_error w) (escaped w) (sched w) in
  match beh op (calls w) with
  | Some e => (Halt (Raise e), w')
  | None => (Ret (), w')
  end.

(** [client = RTSTTClient()]: the global is bound once the constructor
    has returned. *)
Definition construct_client : M unit :=
  call Construct ;; set_client true.

(** [client.on_transcription(on_transcription)] *)
Definition register_transcription : M unit :=
  call OnTranscription ;; set_cb_transcription true.

(** [client.on_error(on_error)] *)
Definition register_error : M unit :=
  call OnError ;; set_cb_error true.

(** [cleanup(signum, frame)], lines 14-23; neither argument is read. *)
Definition cleanup (signum : option signum) : M unit :=
  c ← get_client ;
  (if (c : bool) return M unit
   then try_except (call StopListening ;; call Disconnect) (λ _, ret ())
   else ret ()) ;;
  sys_exit 0.

(** [result.<attr>] *)
Definition getattr (r : result) (attr : string) : M pyval :=
  match r !! attr with
  | Some v => ret v
  | None => raise (AttributeError attr)
  end.

(** [getattr(result, attr, default)] *)
Definition getattr_default (r : result) (attr : string) (default : pyval) : pyval :=
  match r !! attr with
  | Some v => v
  | None => default
  end.

(** [on_transcription(result)], lines 47-56. *)
Definition on_transcription (r : result) : M unit :=
  text ← getattr r "text" ;
  confidence ← getattr r "confidence" ;
  write_line [ ("type", PyStr "transcription");
               ("text", text);
               ("confidence", confidence);
               ("language", getattr_default r "language" (PyStr "en"));
               ("is_final", getattr_default r "is_final" (PyBool true)) ].

(** [on_error(error)], lines 58-61. *)
Definition on_error (error : exn) : M unit :=
  write_line [ ("type", PyStr "error"); ("error", PyStr (str error)) ].

(** The two status lines of lines 42 and 71. *)
Definition ready (status : string) : message :=
  [ ("type", PyStr "ready"); ("status", PyStr status) ].

(** A callback run on a thread of the client: what it raises goes back
    to the client, never to the main thread. *)
Definition run_callback (cb : M unit) (w : world) : world :=
  match cb w with
  | (Halt (Raise e), w') => World (client w') (stdout w') (calls w') (cb_transcription w')
                           (cb_error w') (escaped w' ++ [e]) (sched w')
  | (_, w') => w'
  end.

(** The environment acts until the main thread is next to run.  A signal
    runs [cleanup] in the main thread, at the place the main thread has
    reached, and what the handler raises is raised there.  With
    [blocking] the main thread sits in [select.select([], [], [])], which
    has nothing to wait for and returns only through a handler that
    raises. *)
Fixpoint poll (blocking : bool) (evs : list env_event) (w : world) : outcome unit * world :=
  let rest (evs' : list env_event) :=
    World (client w) (stdout w) (calls w) (cb_transcription w)
          (cb_error w) (escaped w) evs' in
  match evs with
  | [] => (if blocking then Halt Blocked else Ret (), rest [])
  | EvStep :: evs' =>
      if blocking then poll blocking evs' w else (Ret (), rest evs')
  | EvSignal s :: evs' =>
      match cleanup (Some s) (rest evs') with
      | (Ret _, w') => poll blocking evs' w'
      | r => r
      end
  | EvTranscription r :: evs' =>
      if cb_transcription w
      then poll blocking evs' (run_callback (on_transcription r) w)
      else poll blocking evs' w
  | EvError e :: evs' =>
      if cb_error w
      then poll blocking evs' (run_callback (on_error e) w)
      else poll blocking evs' w
  end.

(** Between two statements of [main]. *)
Definition tick : M unit := λ w, poll false (sched w) w.

(** [select.select([], [], [])] *)
Definition select : M unit := λ w, poll true (sched w) w.

(** The loop of lines 77-82. *)
Definition keep_running (fuel : nat) : M unit :=
  while_true fuel (tick ;; try_except select (λ _, ret ())).

(** The [except Exception as e] block, lines 85-88. *)
Definition report_and_cleanup (e : exn) : M unit :=
  tick ;; write_line [ ("type", PyStr "error"); ("error", PyStr (str e)) ] ;;
  tick ;; cleanup None.

(** The body of the [try] of [main], lines 37-82. *)
Definition main_body (fuel : nat) : M unit :=
  tick ;; construct_client ;;
  tick ;; call Connect ;;
  tick ;; write_line (ready "connected") ;;
  tick ;; register_transcription ;;
  tick ;; register_error ;;
  tick ;; call Subscribe ;;
  tick ;; call StartListening ;;
  tick ;; write_line (ready "listening") ;;
  keep_running fuel.

(** [main()], from line 33 on. *)
Definition main (fuel : nat) : M unit :=
  tick ;; reopen_stdout ;;
  try_except_Exception (main_body fuel) report_and_cleanup.

(** How the process stands once [main()] has run at module level. *)
Inductive status :=
  | Exited (code : Z)        (* the interpreter exited with this status *)
  | Crashed (e : exn)        (* uncaught exception: traceback, non-zero status *)
  | Running                  (* the main thread is blocked for good *)
  | OutOfFuel.

(** The status the parent sees after [sys.exit(code)]: the interpreter
    hands the code to [exit] as a C integer, and the system keeps its low
    eight bits; a code that does not fit a 64-bit integer counts as -1. *)
Definition exit_status (code : Z) : Z :=
  if ((- 2 ^ 63 <=? code) && (code <? 2 ^ 63))%Z
  then (code `mod` 256)%Z
  else 255%Z.

Definition status_of (o : outcome unit) : status :=
  match o with
  | Ret _ => Exited 0
  | Halt (Raise (SystemExit code)) => Exited (exit_status code)
  | Halt (Raise e) => Crashed e
  | Halt Blocked => Running
  | Halt Diverged => OutOfFuel
  end.

(** A run of the bridge against a schedule; the loop needs at most one
    turn per scheduled event, plus one. *)
Definition run (evs : list env_event) : status * world :=
  let (o, w) := main (S (length evs)) (initial evs) in (status_of o, w).

End bridge.

(** ** Vocabulary of the statements *)

(** The world after [ops] were invoked on the client and nothing else
    changed. *)
Definition with_calls (w : world) (ops : list client_op) : world :=
  World (client w) (stdout w) (calls w ++ ops) (cb_transcription w)
        (cb_error w) (escaped w) (sched w).

(** The world after the lines [ds] were written and nothing else changed. *)
Definition with_lines (w : world) (ds : list message) : world :=
  World (client w) (stdout w ++ ds) (calls w) (cb_transcription w)
        (cb_error w) (escaped w) (sched w).

Definition with_sched (w : world) (evs : list env_event) : world :=
  World (client w) (stdout w) (calls w) (cb_transcription w)
        (cb_error w) (escaped w) evs.

(** [triple P m Q X]: run from a world in [P], [m] returns in [Q] or
    halts in [X]. *)
Definition triple {A} (P : world → Prop) (m : M A)
    (Q : A → world → Prop) (X : halt → world → Prop) : Prop :=
  ∀ w, P w →
    match m w with
    | (Ret a, w') => Q a w'
    | (Halt h, w') => X h w'
    end.

(** A line that is not one of the two status lines. *)
Definition not_ready (d : message) : Prop := field "type" d ≠ Some (PyStr "ready").

(** The client operations a run of [cleanup] invokes from [w]. *)
Definition shutdown_calls (beh : client_op → list client_op → option exn)
    (w : world) : list client_op :=
  if client w
  then match beh StopListening (calls w) with
       | Some _ => [StopListening]
       | None => [StopListening; Disconnect]
       end
  else [].

(** The scenario of the specification: "hello world" at confidence 0.92,
    no language, no finality flag. *)
Definition hello_world : result :=
  <["text" := PyStr "hello world"]>
    (<["confidence" := PyFloat 0x1.d70a3d70a3d71p-1%float]> ∅).

(** An event with a text and nothing else. *)
Definition text_only : result := <["text" := PyStr "hello world"]> ∅.

(** A client whose [stop_listening] fails. *)
Definition stop_fails : client_op → list client_op → option exn :=
  λ op _, if decide (op = StopListening)
          then Some (Exc "RuntimeError" "not listening") else None.

(** A client whose [stop_listening] fails the first time it is invoked
    and returns from then on. *)
Definition stop_fails_once : client_op → list client_op → option exn :=
  λ op log, if decide (op = StopListening ∧ StopListening ∉ log)
            then Some (Exc "RuntimeError" "not listening") else None.

(** The calls of a start-up that went through, in order. *)
Definition startup_calls : list client_op :=
  [Construct; Connect; OnTranscription; OnError; Subscribe; StartListening].

(** Every call of the start-up sequence returns. *)
Definition startup_succeeds (beh : client_op → list client_op → option exn) : Prop :=
  beh Construct [] = None
  ∧ beh Connect [Construct] = None
  ∧ beh OnTranscription [Construct; Connect] = None
  ∧ beh OnError [Construct; Connect; OnTranscription] = None
  ∧ beh Subscribe [Construct; Connect; OnTranscription; OnError] = None
  ∧ beh StartListening [Construct; Connect; OnTranscription; OnError; Subscribe] = None.

(** The world right after the "listening" line, with [evs] still to come. *)
Definition listening_world (evs : list env_event) : world :=
  World true [ready "connected"; ready "listening"] startup_calls true true [] evs.

(** No signal is delivered before the main thread has taken [n] steps. *)
Fixpoint quiet_until (n : nat) (evs : list env_event) : bool :=
  match n, evs with
  | 0, _ => true
  | _, [] => true
  | S n', EvStep :: evs' => quiet_until n' evs'
  | _, EvSignal _ :: _ => false
  | _, _ :: evs' => quiet_until n evs'
  end.

(** What is left of the schedule once the main thread has been given its
    next step. *)
Fixpoint after_step (evs : list env_event) : list env_event :=
  match evs with
  | [] => []
  | EvStep :: evs' => evs'
  | _ :: evs' => after_step evs'
  end.

(** Every "listening" status line has a "connected" status line before it. *)
Definition listening_after_connected (out : list message) : Prop :=
  ∀ i, out !! i = Some (ready "listening") →
    ∃ j, (j < i)%nat ∧ out !! j = Some (ready "connected").

(** The line [on_error] and the [except] block of [main] write for [e]. *)
Definition error_line (e : exn) : message :=
  [("type", PyStr "error"); ("error", PyStr (str e))].

(** No "listening" status line has been written. *)
Definition not_listening_yet (out : list message) : Prop :=
  ready "listening" ∉ out.

(** The "connected" status line has been written, and before any
    "listening" status line. *)
Definition connected_first (out : list message) : Prop :=
  ready "connected" ∈ out ∧ listening_after_connected out.

(** From [w] to [w']: only lines other than status lines were written,
    and the schedule was only consumed. *)
Definition evolves (w w' : world) : Prop :=
  (∃ ds, stdout w' = stdout w ++ ds ∧ Forall not_ready ds)
  ∧ (length (sched w') ≤ length (sched w))%nat.

(** [quiet m]: whatever [m] does, it writes no status line, never puts
    events back, and never runs out of fuel. *)
Definition quiet {A} (m : M A) : Prop :=
  ∀ w, evolves w (m w).2 ∧ (m w).1 ≠ Halt Diverged.

(** A client whose [connect] is interrupted rather than failing. *)
Definition interrupted : client_op → list client_op → option exn :=
  λ op _, if decide (op = Connect) then Some KeyboardInterrupt else None.

(** A client whose [connect] and [stop_listening] both fail. *)
Definition unreachable_and_stuck : client_op → list client_op → option exn :=
  λ op _, if decide (op = Connect)
          then Some (Exc "ConnectionError" "backend unreachable")
          else if decide (op = StopListening)
               then Some (Exc "RuntimeError" "not listening") else None.

(** A client that never fails. *)
Definition all_good : client_op → list client_op → option exn := λ _ _, None.

(** A client whose [connect] fails the way the specification describes. *)
Definition unreachable : client_op → list client_op → option exn :=
  λ op _, if decide (op = Connect)
          then Some (Exc "ConnectionError" "backend unreachable") else None.

(** *** Shapes of output and of the call log *)

(** The line [on_transcription] writes for an event [r] whose text is [t]
    and whose confidence is [c]. *)
Definition transcription_line (r : result) (t c : pyval) : message :=
  [("type", PyStr "transcription"); ("text", t); ("confidence", c);
   ("language", default (PyStr "en") (r !! "language"));
   ("is_final", default (PyBool true) (r !! "is_final"))].

(** A line as the callbacks and the [except] block write them. *)
Definition event_line (d : message) : Prop :=
  (∃ e, d = error_line e)
  ∨ (∃ r t c, r !! "text" = Some t ∧ r !! "confidence" = Some c
              ∧ d = transcription_line r t c).

(** What one run of [cleanup] invokes on a bound client. *)
Definition cleanup_round (ops : list client_op) : Prop :=
  ops = [StopListening] ∨ ops = [StopListening; Disconnect].

(** A call log: the start-up calls in order, up to some point, then
    rounds of [cleanup]. *)
Definition calls_shape (cs : list client_op) : Prop :=
  ∃ k rounds,
    cs = take k startup_calls ++ concat rounds ∧ Forall cleanup_round rounds.

(** An output: nothing, or one error line, or the "connected" line
    followed by event lines among which "listening" comes at most once. *)
Definition out_shape (out : list message) : Prop :=
  out = []
  ∨ (∃ e, out = [error_line e])
  ∨ (∃ ds, out = ready "connected" :: ds ∧ Forall event_line ds)
  ∨ (∃ ds1 ds2, out = ready "connected" :: ds1 ++ ready "listening" :: ds2
                ∧ Forall event_line ds1 ∧ Forall event_line ds2).

(** The client raises nothing but instances of [Exception]. *)
Definition raises_only_Exceptions
    (beh : client_op → list client_op → option exn) : Prop :=
  ∀ op log e, beh op log = Some e → is_Exception e = true.

(** The line a callback event puts on standard output, if any. *)
Definition callback_line (ev : env_event) : option message :=
  match ev with
  | EvTranscription r =>
      match r !! "text", r !! "confidence" with
      | Some t, Some c => Some (transcription_line r t c)
      | _, _ => None
      end
  | EvError e => Some (error_line e)
  | EvStep | EvSignal _ => None
  end.

Definition is_callback (ev : env_event) : bool :=
  match ev with
  | EvTranscription _ | EvError _ => true
  | EvStep | EvSignal _ => false
  end.

(** How far the output has come. *)
Inductive stage := Silent | AfterConnected | AfterListening.

Global Instance stage_eq_dec : EqDecision stage.
Proof. solve_decision. Defined.

Definition stage_out (st : stage) (out : list message) : Prop :=
  match st with
  | Silent => out = []
  | AfterConnected => ∃ ds, out = ready "connected" :: ds ∧ Forall event_line ds
  | AfterListening =>
      ∃ ds1 ds2, out = ready "connected" :: ds1 ++ ready "listening" :: ds2
                 ∧ Forall event_line ds1 ∧ Forall event_line ds2
  end.

(** A point of the start-up: [k] calls made, the client bound or not, the
    callbacks registered or not, the output at stage [st]. *)
Definition at_point (k : nat) (cl ct ce : bool) (st : stage) (w : world) : Prop :=
  calls w = take k startup_calls
  ∧ client w = cl
  ∧ cb_transcription w = ct
  ∧ cb_error w = ce
  ∧ stage_out st (stdout w).

(** The start-up calls that come before a stage of the output. *)
Definition stage_calls (st : stage) : nat :=
  match st with
  | Silent => 0
  | AfterConnected => 2
  | AfterListening => 6
  end.

(** The output never runs ahead of the client: the "connected" line is
    there only if the constructor and [connect] were invoked first, the
    "listening" line only if all six start-up calls were. *)
Definition linked (out : list message) (cs : list client_op) : Prop :=
  (ready "connected" ∈ out → take 2 startup_calls `prefix_of` cs)
  ∧ (ready "listening" ∈ out → startup_calls `prefix_of` cs).

(** How the [try] body of [main] can stop: not for want of fuel; with a
    call log and an output of the expected shapes, the output empty only
    while no callback is registered; and on no other exception than the
    [SystemExit(0)] of [cleanup] or one the client raised. *)
Definition body_halt (beh : client_op → list client_op → option exn)
    (h : halt) (w : world) : Prop :=
  linked (stdout w) (calls w)
  ∧ h ≠ Diverged
  ∧ calls_shape (calls w)
  ∧ (∃ st, stage_out st (stdout w)
           ∧ (st = Silent → cb_transcription w = false ∧ cb_error w = false))
  ∧ match h with
    | Raise e => e = SystemExit 0 ∨ ∃ op log, beh op log = Some e
    | _ => True
    end.

(** How [main] can stop. *)
Definition main_halt (beh : client_op → list client_op → option exn)
    (h : halt) (w : world) : Prop :=
  linked (stdout w) (calls w)
  ∧ h ≠ Diverged
  ∧ calls_shape (calls w)
  ∧ out_shape (stdout w)
  ∧ match h with
    | Raise e =>
        e = SystemExit 0
        ∨ is_Exception e = false ∧ ∃ op log, beh op log = Some e
    | _ => True
    end.

(** An event that carries a time stamp besides the four attributes the
    bridge reads. *)
Definition stamped : result :=
  <["timestamp" := PyInt 1700000000]>
    (<["text" := PyStr "hello world"]>
       (<["confidence" := PyFloat 0x1.d70a3d70a3d71p-1%float]> ∅)).

(** The start-up calls before the [k]-th return and the [k]-th raises
    [e]. *)
Definition fails_at (beh : client_op → list client_op → option exn)
    (k : nat) (e : exn) : Prop :=
  (∀ j op, (j < k)%nat → startup_calls !! j = Some op →
           beh op (take j startup_calls) = None)
  ∧ ∃ op, startup_calls !! k = Some op
          ∧ beh op (take k startup_calls) = Some e.

(** The world in which the [k]-th start-up call has just raised, with [m]
    steps of the main thread still scheduled. *)
Definition failure_world (k m : nat) : world :=
  World (1 <=? k)%nat (if (2 <=? k)%nat then [ready "connected"] else [])
    (take (S k) startup_calls) (3 <=? k)%nat (4 <=? k)%nat [] (replicate m EvStep).

(** A client whose [subscribe] fails. *)
Definition no_subscription : client_op → list client_op → option exn :=
  λ op _, if decide (op = Subscribe)
          then Some (Exc "RuntimeError" "subscription refused") else None.

(** A client whose constructor leaves through [sys.exit(3)]. *)
Definition exits_in_constructor : client_op → list client_op → option exn :=
  λ op _, if decide (op = Construct) then Some (SystemExit 3) else None.

(** How often [stop_listening] was invoked. *)
Definition stops (cs : list client_op) : nat :=
  length (filter (λ op, op = StopListening) cs).

(** [k] signals, each finding the main thread back in
    [select.select]. *)
Definition signals_in_wait (s : signum) (k : nat) : list env_event :=
  concat (replicate k [EvStep; EvSignal s]).

(** ** The handlers, one call at a time *)

Section handlers.

Variable beh : client_op → list client_op → option exn.

Lemma with_calls_nil w : with_calls w [] = w.
Proof. destruct w; unfold with_calls; simpl. by rewrite app_nil_r. Qed.

Lemma with_lines_nil w : with_lines w [] = w.
Proof. destruct w; unfold with_lines; simpl. by rewrite app_nil_r. Qed.

(** [cleanup] always ends in [SystemExit(0)], whatever the two client
    calls do; it invokes [stop_listening] when the client is bound, then
    [disconnect] when [stop_listening] returned, and touches nothing
    else. *)
Lemma cleanup_spec sg w :
  cleanup beh sg w =
    (Halt (Raise (SystemExit 0)),
     with_calls w
       (if client w
        then match beh StopListening (calls w) with
             | Some _ => [StopListening]
             | None => [StopListening; Disconnect]
             end
        else [])).
Proof.
  unfold cleanup, mbind, M_bind, bind, get_client, try_except, call, sys_exit,
    raise, ret, with_calls; simpl.
  destruct (client w) eqn:Hc; simpl.
  - destruct (beh StopListening (calls w)) as [e|]; simpl.
    + by rewrite Hc.
    + destruct (beh Disconnect (calls w ++ [StopListening])) as [e|]; simpl;
        by rewrite Hc, <- app_assoc.
  - rewrite app_nil_r. destruct w; simpl in *; by subst.
Qed.

Lemma on_error_spec e w : on_error e w = (Ret (), with_lines w [error_line e]).
Proof. reflexivity. Qed.

Lemma on_transcription_spec r w :
  on_transcription r w =
    match r !! "text", r !! "confidence" with
    | Some t, Some c =>
        (Ret (), with_lines w
           [[("type", PyStr "transcription"); ("text", t); ("confidence", c);
             ("language", default (PyStr "en") (r !! "language"));
             ("is_final", default (PyBool true) (r !! "is_final"))]])
    | Some _, None => (Halt (Raise (AttributeError "confidence")), w)
    | None, _ => (Halt (Raise (AttributeError "text")), w)
    end.
Proof.
  unfold on_transcription, getattr, getattr_default, mbind, M_bind, bind, ret,
    raise, write_line, with_lines.
  destruct (r !! "text") as [t|]; [|done].
  destruct (r !! "confidence") as [c|]; [|done].
  by destruct (r !! "language"), (r !! "is_final").
Qed.

End handlers.

(** ** Reasoning rules *)

Lemma triple_conseq {A} (P P' : world → Prop) (m : M A) Q Q' X X' :
  triple P' m Q' X' →
  (∀ w, P w → P' w) →
  (∀ a w, Q' a w → Q a w) →
  (∀ h w, X' h w → X h w) →
  triple P m Q X.
Proof.
  intros Hm HP HQ HX w Hw. specialize (Hm w (HP w Hw)).
  destruct (m w) as [[a|h] w']; auto.
Qed.

Lemma triple_bind {A B} (P : world → Prop) (m : M A) (k : A → M B) R Q X :
  triple P m R X →
  (∀ a, triple (R a) (k a) Q X) →
  triple P (m ≫= k) Q X.
Proof.
  intros Hm Hk w Hw. specialize (Hm w Hw).
  unfold mbind, M_bind, bind. destruct (m w) as [[a|h] w']; [|done].
  by apply Hk.
Qed.

Lemma triple_try_except_Exception {A} (P : world → Prop) (body : M A) handler Q X Y :
  triple P body Q Y →
  (∀ e, is_Exception e = true → triple (Y (Raise e)) (handler e) Q X) →
  (∀ e w, is_Exception e = false → Y (Raise e) w → X (Raise e) w) →
  (∀ w, Y Blocked w → X Blocked w) →
  (∀ w, Y Diverged w → X Diverged w) →
  triple P (try_except_Exception body handler) Q X.
Proof.
  intros Hb Hh HE HB HD w Hw. specialize (Hb w Hw). unfold try_except_Exception.
  destruct (body w) as [[a|[e| |]] w']; auto.
  destruct (is_Exception e) eqn:He; [by apply Hh | by apply HE].
Qed.

(** ** The environment's turn *)

Section environment.

Variable beh : client_op → list client_op → option exn.

Lemma poll_nil b w :
  poll beh b [] w = (if b then Halt Blocked else Ret (), with_sched w []).
Proof. reflexivity. Qed.

Lemma poll_step b evs w :
  poll beh b (EvStep :: evs) w =
    if b then poll beh b evs w else (Ret (), with_sched w evs).
Proof. reflexivity. Qed.

Lemma poll_signal b s evs w :
  poll beh b (EvSignal s :: evs) w =
    (Halt (Raise (SystemExit 0)),
     with_calls (with_sched w evs) (shutdown_calls beh w)).
Proof.
  cbn [poll]. fold (with_sched w evs). by rewrite cleanup_spec.
Qed.

Lemma poll_transcription b r evs w :
  poll beh b (EvTranscription r :: evs) w =
    poll beh b evs
      (if cb_transcription w then run_callback (on_transcription r) w else w).
Proof. cbn [poll]. by destruct (cb_transcription w). Qed.

Lemma poll_error b e evs w :
  poll beh b (EvError e :: evs) w =
    poll beh b evs (if cb_error w then with_lines w [error_line e] else w).
Proof.
  cbn [poll]. unfold run_callback. rewrite on_error_spec.
  by destruct (cb_error w).
Qed.

(** A callback writes at most one line, never a status line, and leaves
    the client, its log and the registrations alone. *)
Lemma run_callback_on_transcription r w :
  ∃ ds es,
    run_callback (on_transcription r) w =
      World (client w) (stdout w ++ ds) (calls w) (cb_transcription w)
            (cb_error w) (escaped w ++ es) (sched w)
    ∧ Forall not_ready ds.
Proof.
  unfold run_callback. rewrite on_transcription_spec.
  destruct (r !! "text") as [t|]; [destruct (r !! "confidence") as [c|]|].
  - eexists [_], []. split.
    + unfold with_lines; simpl. by rewrite app_nil_r.
    + by repeat constructor.
  - eexists [], [_]. split; [|constructor]. simpl. by rewrite app_nil_r.
  - eexists [], [_]. split; [|constructor]. simpl. by rewrite app_nil_r.
Qed.

(** What [poll] can do, for every schedule: it writes no status line, it
    only consumes the schedule, it returns only to a main thread that is
    not blocked, it raises nothing but the [SystemExit(0)] of a signal it
    has consumed, and it never diverges. *)
Lemma poll_spec b evs : ∀ w,
  let r := poll beh b evs w in
  (∃ ds, stdout r.2 = stdout w ++ ds ∧ Forall not_ready ds)
  ∧ (length (sched r.2) ≤ length evs)%nat
  ∧ match r.1 with
    | Ret _ => b = false
    | Halt (Raise e) => e = SystemExit 0 ∧ (length (sched r.2) < length evs)%nat
    | Halt Blocked => b = true
    | Halt Diverged => False
    end.
Proof.
  induction evs as [|ev evs IH]; intros w; cbv zeta.
  - rewrite poll_nil. destruct b; simpl;
      (split; [exists []; by rewrite app_nil_r|]); auto.
  - assert (Hkeep : ∀ w0 : world,
      (∃ ds, stdout w0 = stdout w ++ ds ∧ Forall not_ready ds) →
      let r := poll beh b evs w0 in
      (∃ ds, stdout r.2 = stdout w ++ ds ∧ Forall not_ready ds)
      ∧ (length (sched r.2) ≤ length (ev :: evs))%nat
      ∧ match r.1 with
        | Ret _ => b = false
        | Halt (Raise e) =>
            e = SystemExit 0 ∧ (length (sched r.2) < length (ev :: evs))%nat
        | Halt Blocked => b = true
        | Halt Diverged => False
        end).
    { intros w0 (ds & Hw0 & Hds). cbv zeta.
      destruct (IH w0) as ((ds' & Hout & Hds') & Hlen & Ho).
      split.
      { exists (ds ++ ds'). rewrite Hout, Hw0, <- app_assoc.
        split; [done | by apply Forall_app]. }
      split; [simpl; lia|].
      destruct (poll beh b evs w0).1 as [?|[?| |]]; try done.
      destruct Ho as [? ?]. split; [done|]. simpl. lia. }
    assert (Hsame : ∃ ds, stdout w = stdout w ++ ds ∧ Forall not_ready ds).
    { exists []. by rewrite app_nil_r. }
    destruct ev as [|s|r|e].
    + rewrite poll_step. destruct b; [by apply Hkeep|].
      simpl. repeat split; auto with lia.
    + rewrite poll_signal. simpl. repeat split; auto with lia.
    + rewrite poll_transcription.
      destruct (cb_transcription w) eqn:Hcbt; [|by apply Hkeep].
      destruct (run_callback_on_transcription r w) as (ds & es & -> & Hds).
      apply Hkeep; simpl; eauto.
    + rewrite poll_error.
      destruct (cb_error w) eqn:Hcbe; [|by apply Hkeep].
      apply Hkeep; simpl.
      eexists [_]. split; [done|]. by repeat constructor.
Qed.

End environment.

(** ** The transcription callback *)

(** C2: for a transcription event that carries [text] and [confidence],
    the callback writes exactly one message, with the keys [type], [text],
    [confidence], [language], [is_final] in this order; [type] is
    "transcription", [text] and [confidence] are the event's own values
    unchanged, [language] is the event's or "en" when the event has none,
    [is_final] is the event's or [True] when the event has none.  When the
    client delivers the event to the registered callback, that line is what
    reaches standard output. *)
Theorem on_transcription_message (r : result) (t c : pyval) :
  r !! "text" = Some t →
  r !! "confidence" = Some c →
  ∃ m : message,
    (∀ w, on_transcription r w = (Ret (), with_lines w [m]))
    ∧ (∀ beh b evs w, cb_transcription w = true →
         poll beh b (EvTranscription r :: evs) w = poll beh b evs (with_lines w [m]))
    ∧ m.*1 = ["type"; "text"; "confidence"; "language"; "is_final"]
    ∧ field "type" m = Some (PyStr "transcription")
    ∧ field "text" m = Some t
    ∧ field "confidence" m = Some c
    ∧ field "language" m = Some (default (PyStr "en") (r !! "language"))
    ∧ field "is_final" m = Some (default (PyBool true) (r !! "is_final")).
Proof.
  intros Ht Hc. eexists. split; [|split].
  - intros w. rewrite on_transcription_spec, Ht, Hc. reflexivity.
  - intros beh b evs w Hcb. rewrite poll_transcription, Hcb.
    unfold run_callback. by rewrite on_transcription_spec, Ht, Hc.
  - by repeat split.
Qed.

Lemma on_transcription_message_witness :
  ∃ m : message,
    (∀ w, on_transcription hello_world w = (Ret (), with_lines w [m]))
    ∧ (∀ beh b evs w, cb_transcription w = true →
         poll beh b (EvTranscription hello_world :: evs) w
         = poll beh b evs (with_lines w [m]))
    ∧ m.*1 = ["type"; "text"; "confidence"; "language"; "is_final"]
    ∧ field "type" m = Some (PyStr "transcription")
    ∧ field "text" m = Some (PyStr "hello world")
    ∧ field "confidence" m = Some (PyFloat 0x1.d70a3d70a3d71p-1%float)
    ∧ field "language" m = Some (PyStr "en")
    ∧ field "is_final" m = Some (PyBool true).
Proof.
  apply (on_transcription_message hello_world (PyStr "hello world")
           (PyFloat 0x1.d70a3d70a3d71p-1%float)); reflexivity.
Defined.

(** C10: only [language] and [is_final] have defaults.  For an event
    without [text], or without [confidence], the callback raises
    [AttributeError], an [Exception], for the first of the two that is
    missing; it writes nothing, and the exception leaves the callback for
    the client that called it. *)
Theorem on_transcription_missing_attribute (r : result) (w : world) :
  r !! "text" = None ∨ r !! "confidence" = None →
  ∃ attr,
    (attr = "text" ∨ attr = "confidence")
    ∧ r !! attr = None
    ∧ on_transcription r w = (Halt (Raise (AttributeError attr)), w)
    ∧ is_Exception (AttributeError attr) = true
    ∧ stdout (run_callback (on_transcription r) w) = stdout w
    ∧ escaped (run_callback (on_transcription r) w)
      = escaped w ++ [AttributeError attr].
Proof.
  intros H. unfold run_callback. rewrite on_transcription_spec.
  destruct (r !! "text") as [t|] eqn:Ht.
  - destruct H as [H|H]; [done|]. rewrite H.
    exists "confidence". repeat split; auto.
  - exists "text". repeat split; auto.
Qed.

Lemma on_transcription_missing_attribute_witness :
  ∃ attr,
    (attr = "text" ∨ attr = "confidence")
    ∧ text_only !! attr = None
    ∧ on_transcription text_only (initial [])
      = (Halt (Raise (AttributeError attr)), initial [])
    ∧ is_Exception (AttributeError attr) = true
    ∧ stdout (run_callback (on_transcription text_only) (initial [])) = []
    ∧ escaped (run_callback (on_transcription text_only) (initial []))
      = [] ++ [AttributeError attr].
Proof.
  apply (on_transcription_missing_attribute text_only (initial [])).
  right. reflexivity.
Defined.

(** ** Cleanup *)

(** One run of [cleanup] with the client bound and a [stop_listening]
    that raises: [stop_listening] is invoked and nothing more on the
    client; the exception is swallowed, [disconnect] is skipped in this
    run of the handler, and control goes on to [sys.exit(0)].  Whether the
    process then exits is up to the place the handler interrupted. *)
Theorem cleanup_skips_disconnect beh sg (w : world) (e : exn) :
  client w = true →
  beh StopListening (calls w) = Some e →
  cleanup beh sg w = (Halt (Raise (SystemExit 0)), with_calls w [StopListening])
  ∧ Disconnect ∉ drop (length (calls w)) (calls (cleanup beh sg w).2).
Proof.
  intros Hc He. rewrite cleanup_spec, Hc, He. split; [done|].
  simpl. rewrite drop_app_length. by intros [?|?%elem_of_nil]%elem_of_cons.
Qed.

Lemma cleanup_skips_disconnect_witness :
  let w := World true [] [Construct; Connect] false false [] [] in
  cleanup stop_fails (Some SIGTERM) w
  = (Halt (Raise (SystemExit 0)), with_calls w [StopListening])
  ∧ Disconnect ∉ drop (length (calls w)) (calls (cleanup stop_fails (Some SIGTERM) w).2).
Proof.
  apply (cleanup_skips_disconnect stop_fails (Some SIGTERM)
           (World true [] [Construct; Connect] false false [] [])
           (Exc "RuntimeError" "not listening")); reflexivity.
Defined.

(** ** Runs of the bridge *)

Section runs.

Variable beh : client_op → list client_op → option exn.

(** A start-up that nothing disturbs: nine steps of the main thread take
    it from line 33 to the head of the loop, both status lines written. *)
Lemma main_listening fuel evs :
  startup_succeeds beh →
  main beh fuel (initial (replicate 9 EvStep ++ evs))
  = try_except_Exception (keep_running beh fuel) (report_and_cleanup beh)
      (listening_world evs).
Proof.
  intros (H1 & H2 & H3 & H4 & H5 & H6).
  unfold main, main_body, reopen_stdout, construct_client,
    register_transcription, register_error, try_except_Exception, mbind,
    M_bind, bind, ret, tick, call, write_line, set_client,
    set_cb_transcription, set_cb_error.
  cbn -[keep_running report_and_cleanup].
  rewrite H1. cbn -[keep_running report_and_cleanup].
  rewrite H2. cbn -[keep_running report_and_cleanup].
  rewrite H3. cbn -[keep_running report_and_cleanup].
  rewrite H4. cbn -[keep_running report_and_cleanup].
  rewrite H5. cbn -[keep_running report_and_cleanup].
  rewrite H6. cbn -[keep_running report_and_cleanup].
  reflexivity.
Qed.

(** A signal that finds the main thread inside [select.select] runs
    [cleanup], and the [SystemExit] it raises is caught by the bare
    [except:] of line 81: the [try] statement returns. *)
Lemma select_swallows_signal s evs w :
  try_except (select beh) (λ _, ret ()) (with_sched w (EvSignal s :: evs))
  = (Ret (), with_calls (with_sched w evs) (shutdown_calls beh w)).
Proof.
  unfold try_except, select. cbn [sched with_sched]. by rewrite poll_signal.
Qed.

(** One turn of the loop. *)
Lemma keep_running_S fuel w :
  keep_running beh (S fuel) w
  = match tick beh w with
    | (Ret _, w1) =>
        match try_except (select beh) (λ _, ret ()) w1 with
        | (Ret _, w2) => keep_running beh fuel w2
        | (Halt h, w2) => (Halt h, w2)
        end
    | (Halt h, w1) => (Halt h, w1)
    end.
Proof.
  unfold keep_running. cbn [while_true]. unfold mbind, M_bind, bind.
  destruct (tick beh w) as [[[]|h] w1]; [|done].
  by destruct (try_except (select beh) (λ _ : exn, ret ()) w1) as [[[]|h] w2].
Qed.

(** With nothing left to come the loop blocks in [select.select]. *)
Lemma keep_running_blocked fuel w :
  sched w = [] → keep_running beh (S fuel) w = (Halt Blocked, w).
Proof.
  intros Hs. rewrite keep_running_S. unfold tick, select, try_except.
  rewrite Hs. cbn. destruct w; cbn in *; by subst.
Qed.

(** C4, as the code has it: a signal that arrives while the main thread
    waits in [select.select] runs [cleanup], which invokes
    [stop_listening] and, if that returned, [disconnect], swallows what
    they raise, writes nothing and raises [SystemExit(0)]; the loop
    swallows that too, and the process is still running. *)
Theorem cleanup_in_wait_does_not_exit (s : signum) :
  startup_succeeds beh →
  run beh (replicate 10 EvStep ++ [EvSignal s])
  = (Running,
     World true [ready "connected"; ready "listening"]
       (startup_calls ++ shutdown_calls beh (listening_world []))
       true true [] []).
Proof.
  intros Hs. unfold run.
  change (replicate 10 EvStep ++ [EvSignal s])
    with (replicate 9 EvStep ++ [EvStep; EvSignal s]).
  rewrite (main_listening _ _ Hs).
  unfold try_except_Exception. cbn [length replicate app].
  rewrite keep_running_S. unfold tick at 1. cbn [sched listening_world].
  rewrite poll_step.
  change (with_sched ?w ?e) with (with_sched (listening_world []) [EvSignal s]).
  rewrite select_swallows_signal, keep_running_blocked by done.
  reflexivity.
Qed.

(** C1, as the code has it: start-up went through and the main thread
    waits in [select.select]; a termination signal arrives, then the
    client delivers one more result.  [cleanup] has run, yet the process
    has not exited, and the result is written out after the cleanup. *)
Theorem signal_in_wait_is_swallowed (s : signum) (r : result) (t c : pyval) :
  startup_succeeds beh →
  r !! "text" = Some t →
  r !! "confidence" = Some c →
  run beh (replicate 10 EvStep ++ [EvSignal s; EvTranscription r])
  = (Running,
     World true
       [ready "connected"; ready "listening";
        [("type", PyStr "transcription"); ("text", t); ("confidence", c);
         ("language", default (PyStr "en") (r !! "language"));
         ("is_final", default (PyBool true) (r !! "is_final"))]]
       (startup_calls ++ shutdown_calls beh (listening_world []))
       true true [] []).
Proof.
  intros Hs Ht Hc. unfold run.
  change (replicate 10 EvStep ++ [EvSignal s; EvTranscription r])
    with (replicate 9 EvStep ++ [EvStep; EvSignal s; EvTranscription r]).
  rewrite (main_listening _ _ Hs).
  unfold try_except_Exception. cbn [length replicate app].
  rewrite keep_running_S. unfold tick at 1. cbn [sched listening_world].
  rewrite poll_step.
  change (with_sched ?w ?e)
    with (with_sched (listening_world []) [EvSignal s; EvTranscription r]).
  rewrite select_swallows_signal, keep_running_S.
  unfold tick, select, try_except. cbn [sched with_calls with_sched].
  rewrite poll_transcription. cbn [cb_transcription listening_world].
  unfold run_callback. rewrite on_transcription_spec, Ht, Hc.
  reflexivity.
Qed.

(** C9, as the code has it: start-up went through and the main thread
    waits in [select.select]; a termination signal arrives and
    [stop_listening] raises in [cleanup].  That run of [cleanup] skips
    [disconnect], but the process does not exit: the loop swallows the
    [SystemExit].  It is still running, and when a second signal arrives
    and [stop_listening] returns this time, [disconnect] is invoked on the
    client after all. *)
Theorem stop_listening_failure_does_not_exit (s s' : signum) (e : exn) :
  startup_succeeds beh →
  beh StopListening startup_calls = Some e →
  beh StopListening (startup_calls ++ [StopListening]) = None →
  run beh (replicate 10 EvStep ++ [EvSignal s])
  = (Running,
     World true [ready "connected"; ready "listening"]
       (startup_calls ++ [StopListening]) true true [] [])
  ∧ run beh (replicate 10 EvStep ++ [EvSignal s; EvStep; EvSignal s'])
    = (Running,
       World true [ready "connected"; ready "listening"]
         (startup_calls ++ [StopListening; StopListening; Disconnect])
         true true [] []).
Proof.
  intros Hs He Hn.
  assert (Hfirst : shutdown_calls beh (listening_world []) = [StopListening]).
  { unfold shutdown_calls. cbn [client calls listening_world]. by rewrite He. }
  split; unfold run.
  - change (replicate 10 EvStep ++ [EvSignal s])
      with (replicate 9 EvStep ++ [EvStep; EvSignal s]).
    rewrite (main_listening _ _ Hs).
    unfold try_except_Exception. cbn [length replicate app].
    rewrite keep_running_S. unfold tick at 1. cbn [sched listening_world].
    rewrite poll_step.
    change (with_sched ?w ?e) with (with_sched (listening_world []) [EvSignal s]).
    rewrite select_swallows_signal, keep_running_blocked, Hfirst by done.
    reflexivity.
  - change (replicate 10 EvStep ++ [EvSignal s; EvStep; EvSignal s'])
      with (replicate 9 EvStep ++ [EvStep; EvSignal s; EvStep; EvSignal s']).
    rewrite (main_listening _ _ Hs).
    unfold try_except_Exception. cbn [length replicate app].
    rewrite keep_running_S. unfold tick at 1. cbn [sched listening_world].
    rewrite poll_step.
    change (with_sched ?w ?e)
      with (with_sched (listening_world []) [EvSignal s; EvStep; EvSignal s']).
    rewrite select_swallows_signal, Hfirst, keep_running_S.
    unfold tick at 1. cbn [sched with_calls with_sched].
    rewrite poll_step.
    set (w1 := World true [ready "connected"; ready "listening"]
                 (startup_calls ++ [StopListening]) true true [] []).
    change (with_sched ?w ?e) with (with_sched w1 [EvSignal s']).
    rewrite select_swallows_signal, keep_running_blocked by done.
    unfold shutdown_calls, w1. cbn [client calls]. rewrite Hn.
    reflexivity.
Qed.

(** While the main thread waits, error events only add lines. *)
Lemma poll_errors_blocked es : ∀ w,
  cb_error w = true →
  poll beh true (EvError <$> es) w
  = (Halt Blocked, with_sched (with_lines w (error_line <$> es)) []).
Proof.
  induction es as [|e es IH]; intros w Hcb; cbn [fmap list_fmap].
  - rewrite poll_nil, with_lines_nil. reflexivity.
  - rewrite poll_error, Hcb, IH by done.
    unfold with_sched, with_lines; cbn. by rewrite <- app_assoc.
Qed.

(** C7: the error callback writes exactly one line, [type] "error" and
    [error] the [str] of what it was given, and returns; invoked by the
    client at any moment after its registration it leaves the main thread
    where it was; and a bridge that has started up and receives any number
    of error events writes one line for each, invokes nothing on the
    client, and is still running. *)
Theorem on_error_reports_and_returns (e : exn) :
  (∀ w, on_error e w = (Ret (), with_lines w [error_line e]))
  ∧ (∀ b evs w, cb_error w = true →
       poll beh b (EvError e :: evs) w = poll beh b evs (with_lines w [error_line e]))
  ∧ (∀ es, startup_succeeds beh →
       run beh (replicate 10 EvStep ++ (EvError <$> es))
       = (Running,
          World true ([ready "connected"; ready "listening"] ++ (error_line <$> es))
            startup_calls true true [] [])).
Proof.
  split; [done|]. split.
  - intros b evs w Hcb. by rewrite poll_error, Hcb.
  - intros es Hs. unfold run.
    change (replicate 10 EvStep ++ (EvError <$> es))
      with (replicate 9 EvStep ++ EvStep :: (EvError <$> es)).
    rewrite (main_listening _ _ Hs).
    unfold try_except_Exception. cbn [length replicate app].
    rewrite keep_running_S. unfold tick, select, try_except.
    cbn [sched listening_world]. rewrite poll_step. cbn [sched with_sched].
    by rewrite poll_errors_blocked.
Qed.

(** C8: a signal delivered while [client] is still [None] makes [cleanup]
    raise [SystemExit(0)] and change nothing, so no operation is invoked on
    the client; and when it arrives before the constructor call, that is
    before the main thread has taken its second step, the process exits
    with status 0, nothing written and nothing invoked. *)
Theorem signal_before_client (s : signum) (n : nat) (rest : list env_event) :
  (n ≤ 1)%nat →
  (∀ sg w, client w = false → cleanup beh sg w = (Halt (Raise (SystemExit 0)), w))
  ∧ run beh (replicate n EvStep ++ EvSignal s :: rest)
    = (Exited 0, World false [] [] false false [] rest).
Proof.
  intros Hn. split.
  - intros sg w Hc. rewrite cleanup_spec, Hc. by rewrite with_calls_nil.
  - destruct n as [|[|n]]; [done|done|lia].
Qed.

(** *** A failing start-up *)

Lemma quiet_until_0 evs : quiet_until 0 evs = true.
Proof. by destruct evs. Qed.

Lemma quiet_until_1 n evs :
  quiet_until (S n) evs = true → quiet_until 1 evs = true.
Proof.
  induction evs as [|[] evs IH]; cbn; auto using quiet_until_0.
Qed.

Lemma quiet_until_after_step n evs :
  quiet_until (S n) evs = true → quiet_until n (after_step evs) = true.
Proof.
  induction evs as [|[] evs IH]; cbn; auto; try done.
  intros _. by destruct n.
Qed.

(** Before any callback is registered, and with no signal on the way, the
    environment changes nothing before the main thread's next step. *)
Lemma poll_quiet evs : ∀ w,
  quiet_until 1 evs = true →
  cb_transcription w = false → cb_error w = false →
  poll beh false evs w = (Ret (), with_sched w (after_step evs)).
Proof.
  induction evs as [|[|s|r|e] evs IH]; intros w Hq Ht He; try done.
  - rewrite poll_transcription, Ht. by apply IH.
  - rewrite poll_error, He. by apply IH.
Qed.

(** Before any callback is registered the environment writes nothing:
    the main thread either takes its next step or a signal makes
    [cleanup] raise [SystemExit(0)]. *)
Lemma poll_unregistered evs : ∀ w,
  cb_transcription w = false → cb_error w = false →
  (∃ evs', poll beh false evs w = (Ret (), with_sched w evs'))
  ∨ (∃ evs' ops, poll beh false evs w
       = (Halt (Raise (SystemExit 0)), with_calls (with_sched w evs') ops)).
Proof.
  induction evs as [|[|s|r|e] evs IH]; intros w Ht He.
  - left. by eexists.
  - left. by eexists.
  - right. rewrite poll_signal. by do 2 eexists.
  - rewrite poll_transcription, Ht. by apply IH.
  - rewrite poll_error, He. by apply IH.
Qed.

(** Stepping through a sequence. *)
Lemma bind_apply {A B} (m : M A) (k : A → M B) w :
  (m ≫= k) w
  = match m w with
    | (Ret a, w') => k a w'
    | (Halt h, w') => (Halt h, w')
    end.
Proof. reflexivity. Qed.

Lemma tick_quiet w :
  quiet_until 1 (sched w) = true →
  cb_transcription w = false → cb_error w = false →
  tick beh w = (Ret (), with_sched w (after_step (sched w))).
Proof. intros. by apply poll_quiet. Qed.

(** A start-up whose [connect] raises an [Exception] enters the [except]
    block with the client bound and nothing written. *)
Lemma main_connect_raises fuel evs e :
  beh Construct [] = None →
  beh Connect [Construct] = Some e →
  is_Exception e = true →
  quiet_until 3 evs = true →
  main beh fuel (initial evs)
  = report_and_cleanup beh e
      (World true [] [Construct; Connect] false false []
         (after_step (after_step (after_step evs)))).
Proof.
  intros H1 H2 He Hq. unfold main.
  rewrite bind_apply, tick_quiet by eauto using quiet_until_1.
  apply quiet_until_after_step in Hq.
  rewrite bind_apply. unfold reopen_stdout at 1, ret at 1.
  unfold try_except_Exception, main_body.
  rewrite bind_apply, tick_quiet by eauto using quiet_until_1.
  apply quiet_until_after_step in Hq.
  rewrite bind_apply. unfold construct_client. rewrite bind_apply.
  unfold call at 1. cbn [calls with_sched initial]. rewrite H1.
  unfold set_client. cbn [client stdout calls cb_transcription cb_error escaped sched app].
  rewrite bind_apply, tick_quiet by done.
  rewrite bind_apply. unfold call at 1. cbn [calls with_sched]. rewrite H2, He.
  reflexivity.
Qed.

(** The main thread gets its next step only if no signal comes first. *)
Lemma poll_ret_quiet evs : ∀ w w',
  poll beh false evs w = (Ret (), w') → quiet_until 1 evs = true.
Proof.
  induction evs as [|[|s|r|e] evs IH]; intros w w' Hp.
  - done.
  - by destruct evs.
  - by rewrite poll_signal in Hp.
  - rewrite poll_transcription in Hp. by eapply IH.
  - rewrite poll_error in Hp. by eapply IH.
Qed.

Lemma quiet_until_S n evs :
  quiet_until 1 evs = true → quiet_until n (after_step evs) = true →
  quiet_until (S n) evs = true.
Proof. induction evs as [|[] evs IH]; cbn; auto. Qed.

(** The [except] block before any callback is registered: it ends in
    [SystemExit(0)], after the error line, or sooner when a signal comes
    before line 86. *)
Lemma report_and_cleanup_unregistered e w :
  cb_transcription w = false → cb_error w = false →
  ∃ w', report_and_cleanup beh e w = (Halt (Raise (SystemExit 0)), w')
    ∧ (stdout w' = stdout w ++ [error_line e] ∧ quiet_until 1 (sched w) = true
       ∨ stdout w' = stdout w ∧ quiet_until 1 (sched w) = false).
Proof.
  intros Ht Hc. unfold report_and_cleanup. rewrite bind_apply. unfold tick at 1.
  destruct (poll_unregistered (sched w) w Ht Hc) as [(evs1 & Hp)|(evs1 & ops & Hp)];
    rewrite Hp.
  - apply poll_ret_quiet in Hp.
    rewrite bind_apply. unfold write_line at 1. rewrite bind_apply. unfold tick.
    match goal with |- context [poll beh false (sched ?w0) ?w0] =>
      destruct (poll_unregistered (sched w0) w0 Ht Hc)
        as [(evs2 & ->)|(evs2 & ops & ->)] end.
    + rewrite cleanup_spec. eexists. split; [done|]. by left.
    + eexists. split; [done|]. by left.
  - eexists. split; [done|]. right. split; [done|].
    destruct (quiet_until 1 (sched w)) eqn:Hq; [|done].
    by rewrite poll_quiet in Hp.
Qed.

(** C3, as the code has it: [connect] raises an [Exception] [e] and no
    signal came before.  The process exits with status 0 and writes no
    status line; it writes the one error line for [e] and nothing else
    when no signal arrives before the main thread's fourth step, the one
    that takes it to line 86, and nothing at all when a termination signal
    arrives before. *)
Theorem connect_failure_reported (evs : list env_event) (e : exn) :
  beh Construct [] = None →
  beh Connect [Construct] = Some e →
  is_Exception e = true →
  quiet_until 3 evs = true →
  (run beh evs).1 = Exited 0
  ∧ (ready "connected" ∉ stdout (run beh evs).2)
  ∧ (ready "listening" ∉ stdout (run beh evs).2)
  ∧ (stdout (run beh evs).2 = [] ∨ stdout (run beh evs).2 = [error_line e])
  ∧ (quiet_until 4 evs = true → stdout (run beh evs).2 = [error_line e])
  ∧ (quiet_until 4 evs = false → stdout (run beh evs).2 = []).
Proof.
  intros H1 H2 He Hq. unfold run.
  rewrite (main_connect_raises _ _ _ H1 H2 He Hq).
  match goal with |- context [report_and_cleanup beh e ?w0] =>
    destruct (report_and_cleanup_unregistered e w0 eq_refl eq_refl)
      as (w' & -> & [[Hw Hsig]|[Hw Hsig]]) end;
    cbn [fst snd status_of stdout sched app] in *; rewrite Hw.
  - assert (Hq4 : quiet_until 4 evs = true).
    { pose proof (quiet_until_1 _ _ Hq) as Ha.
      pose proof (quiet_until_after_step _ _ Hq) as Hq2.
      pose proof (quiet_until_1 _ _ Hq2) as Hb.
      pose proof (quiet_until_after_step _ _ Hq2) as Hc.
      apply quiet_until_S; [done|]. apply quiet_until_S; [done|].
      apply quiet_until_S; [done|]. apply quiet_until_S; [done|].
      apply quiet_until_0. }
    repeat split; auto; try congruence;
      by intros [?|?%elem_of_nil]%elem_of_cons.
  - repeat split; auto using not_elem_of_nil.
    intros Hq4. do 3 apply quiet_until_after_step in Hq4. congruence.
Qed.

End runs.

(** C3 as it is stated fails: [connect] raises [ConnectionError], and a
    SIGTERM arrives when the [except] block has been entered and line 86
    has not run yet.  The process exits with status 0 and no error line
    was written. *)
Lemma connect_failure_preempted_by_signal :
  unreachable Connect [Construct] = Some (Exc "ConnectionError" "backend unreachable")
  ∧ run unreachable [EvStep; EvStep; EvStep; EvSignal SIGTERM]
    = (Exited 0,
       World true [] [Construct; Connect; StopListening; Disconnect]
         false false [] [])
  ∧ stdout (run unreachable [EvStep; EvStep; EvStep; EvSignal SIGTERM]).2
    ≠ [error_line (Exc "ConnectionError" "backend unreachable")].
Proof. by repeat split. Qed.

(** What [connect] raises past [except Exception] is not reported either:
    the exception leaves [main] and the interpreter prints a traceback. *)
Lemma connect_interrupted_not_reported :
  run interrupted []
  = (Crashed KeyboardInterrupt, World true [] [Construct; Connect] false false [] []).
Proof. reflexivity. Qed.

Lemma connect_failure_reported_witness :
  let r := run unreachable [] in
  r.1 = Exited 0
  ∧ (ready "connected" ∉ stdout r.2)
  ∧ (ready "listening" ∉ stdout r.2)
  ∧ (stdout r.2 = []
     ∨ stdout r.2 = [error_line (Exc "ConnectionError" "backend unreachable")])
  ∧ (quiet_until 4 [] = true →
     stdout r.2 = [error_line (Exc "ConnectionError" "backend unreachable")])
  ∧ (quiet_until 4 [] = false → stdout r.2 = []).
Proof.
  apply (connect_failure_reported unreachable []
           (Exc "ConnectionError" "backend unreachable")); reflexivity.
Defined.

(** ** Every run *)

Lemma listening_after_connected_app out ds :
  Forall not_ready ds →
  listening_after_connected out → listening_after_connected (out ++ ds).
Proof.
  intros Hds Hout i Hi.
  destruct (decide (i < length out)%nat) as [Hlt|Hge].
  - rewrite lookup_app_l in Hi by done.
    destruct (Hout i Hi) as (j & Hj & Hc). exists j. split; [done|].
    rewrite lookup_app_l by lia. done.
  - rewrite lookup_app_r in Hi by lia.
    apply list_elem_of_lookup_2 in Hi.
    rewrite Forall_forall in Hds. by destruct (Hds _ Hi).
Qed.

Lemma not_listening_yet_evolves w w' :
  evolves w w' → not_listening_yet (stdout w) → not_listening_yet (stdout w').
Proof.
  intros [(ds & -> & Hds) _] Hw [?|Hin]%elem_of_app; [done|].
  rewrite Forall_forall in Hds. by destruct (Hds _ Hin).
Qed.

Lemma connected_first_evolves w w' :
  evolves w w' → connected_first (stdout w) → connected_first (stdout w').
Proof.
  intros [(ds & -> & Hds) _] [Hc Hl]. split.
  - apply elem_of_app. by left.
  - by apply listening_after_connected_app.
Qed.

Lemma not_listening_yet_connected out :
  not_listening_yet out → connected_first (out ++ [ready "connected"]).
Proof.
  intros Hout. split.
  - apply elem_of_app. right. by apply list_elem_of_singleton.
  - intros i Hi. apply list_elem_of_lookup_2 in Hi.
    apply elem_of_app in Hi as [?|Hi]; [done|].
    by apply list_elem_of_singleton in Hi.
Qed.

Lemma connected_first_listening out :
  connected_first out → connected_first (out ++ [ready "listening"]).
Proof.
  intros [Hc Hl]. split.
  - apply elem_of_app. by left.
  - intros i Hi.
    destruct (decide (i < length out)%nat) as [Hlt|Hge].
    + rewrite lookup_app_l in Hi by done.
      destruct (Hl i Hi) as (j & Hj & Hj'). exists j. split; [done|].
      by rewrite lookup_app_l by lia.
    + apply list_elem_of_lookup_1 in Hc as (j & Hj).
      exists j. pose proof (lookup_lt_Some _ _ _ Hj).
      split; [lia|]. by rewrite lookup_app_l by lia.
Qed.

Lemma not_listening_yet_sound out :
  not_listening_yet out → listening_after_connected out.
Proof. intros Hout i Hi. by apply list_elem_of_lookup_2 in Hi. Qed.

Lemma evolves_refl w : evolves w w.
Proof. split; [|done]. exists []. by rewrite app_nil_r. Qed.

Lemma evolves_same w w' :
  stdout w' = stdout w → sched w' = sched w → evolves w w'.
Proof.
  intros Ho Hs. split; [|by rewrite Hs]. exists []. by rewrite app_nil_r.
Qed.

Lemma evolves_trans w1 w2 w3 : evolves w1 w2 → evolves w2 w3 → evolves w1 w3.
Proof.
  intros [(ds & H12 & Hds) Hl] [(ds' & H23 & Hds') Hl']. split; [|lia].
  exists (ds ++ ds'). rewrite H23, H12, <- app_assoc.
  split; [done | by apply Forall_app].
Qed.

Lemma quiet_ret {A} (a : A) : quiet (mret a).
Proof. intros w. split; [apply evolves_refl | done]. Qed.

Lemma quiet_bind {A B} (m : M A) (k : A → M B) :
  quiet m → (∀ a, quiet (k a)) → quiet (m ≫= k).
Proof.
  intros Hm Hk w. rewrite bind_apply. generalize (Hm w).
  destruct (m w) as [[a|h] w']; intros [Hev Hd].
  - destruct (Hk a w') as [Hev' Hd']. split; [|done].
    by eapply evolves_trans.
  - split; [done|]. cbn in *. intros [= ->]. by apply Hd.
Qed.

Lemma quiet_write_line d : not_ready d → quiet (write_line d).
Proof.
  intros Hd w. split; [|done]. split; [|done].
  exists [d]. split; [done | by constructor].
Qed.

Lemma quiet_set_client b : quiet (set_client b).
Proof. intros w. split; [by apply evolves_same | done]. Qed.

Lemma quiet_set_cb_transcription b : quiet (set_cb_transcription b).
Proof. intros w. split; [by apply evolves_same | done]. Qed.

Lemma quiet_set_cb_error b : quiet (set_cb_error b).
Proof. intros w. split; [by apply evolves_same | done]. Qed.

Section every_run.

Variable beh : client_op → list client_op → option exn.

Lemma quiet_call op : quiet (call beh op).
Proof.
  intros w. unfold call.
  destruct (beh op (calls w)); (split; [by apply evolves_same | done]).
Qed.

Lemma quiet_cleanup sg : quiet (cleanup beh sg).
Proof. intros w. rewrite cleanup_spec. split; [by apply evolves_same | done]. Qed.

Lemma quiet_poll b : quiet (λ w, poll beh b (sched w) w).
Proof.
  intros w. destruct (poll_spec beh b (sched w) w) as (Hout & Hlen & Ho).
  split; [by split|]. intros Hd. by rewrite Hd in Ho.
Qed.

Lemma quiet_tick : quiet (tick beh).
Proof. apply (quiet_poll false). Qed.

Lemma quiet_construct_client : quiet (construct_client beh).
Proof. apply quiet_bind; [apply quiet_call | intros; apply quiet_set_client]. Qed.

Lemma quiet_register_transcription : quiet (register_transcription beh).
Proof.
  apply quiet_bind; [apply quiet_call | intros; apply quiet_set_cb_transcription].
Qed.

Lemma quiet_register_error : quiet (register_error beh).
Proof. apply quiet_bind; [apply quiet_call | intros; apply quiet_set_cb_error]. Qed.

Lemma quiet_report_and_cleanup e : quiet (report_and_cleanup beh e).
Proof.
  unfold report_and_cleanup.
  apply quiet_bind; [apply quiet_tick | intros _].
  apply quiet_bind; [by apply quiet_write_line | intros _].
  apply quiet_bind; [apply quiet_tick | intros _].
  apply quiet_cleanup.
Qed.

(** A quiet computation keeps what [evolves] keeps. *)
Lemma quiet_triple {A} (I J : world → Prop) (m : M A) :
  quiet m →
  (∀ w w', evolves w w' → I w → I w') →
  (∀ w, I w → J w) →
  triple I m (λ _, I) (λ h w, J w ∧ h ≠ Diverged).
Proof.
  intros Hm HI HJ w Hw. generalize (Hm w).
  destruct (m w) as [[a|h] w']; intros [Hev Hd]; cbn in *; [eauto|].
  split; [eauto|]. by intros ->.
Qed.

(** The loop never returns; with more fuel than events to come it blocks
    or is left by an exception, and it writes no status line. *)
Lemma keep_running_spec fuel : ∀ w,
  connected_first (stdout w) →
  (length (sched w) < fuel)%nat →
  match keep_running beh fuel w with
  | (Ret _, _) => False
  | (Halt h, w') => connected_first (stdout w') ∧ h ≠ Diverged
  end.
Proof.
  induction fuel as [|fuel IH]; intros w Hc Hl; [lia|].
  rewrite keep_running_S. unfold tick.
  generalize (poll_spec beh false (sched w) w). cbv zeta.
  destruct (poll beh false (sched w) w) as [[[]|h] w1]; cbn [fst snd];
    intros (Hout & Hlen & Ho).
  - assert (Hc1 : connected_first (stdout w1)).
    { apply (connected_first_evolves w); [by split | done]. }
    unfold try_except, select.
    generalize (poll_spec beh true (sched w1) w1). cbv zeta.
    destruct (poll beh true (sched w1) w1) as [[[]|[e| |]] w2]; cbn [fst snd];
      intros (Hout' & Hlen' & Ho'); try done.
    + destruct Ho' as [_ Hlt]. apply IH; [|lia].
      apply (connected_first_evolves w1); [by split | done].
    + split; [|done]. apply (connected_first_evolves w1); [by split | done].
  - split.
    + apply (connected_first_evolves w); [by split | done].
    + by intros ->.
Qed.

(** [main] from a world where no "listening" line has been written yet:
    in the end every "listening" line has a "connected" line before it,
    and with more fuel than events to come the fuel suffices. *)
Lemma main_spec fuel w :
  not_listening_yet (stdout w) →
  (length (sched w) < fuel)%nat →
  listening_after_connected (stdout (main beh fuel w).2)
  ∧ (main beh fuel w).1 ≠ Halt Diverged.
Proof.
  intros Hw Hl.
  set (IA := λ w : world,
         not_listening_yet (stdout w) ∧ (length (sched w) < fuel)%nat).
  set (IB := λ w : world,
         connected_first (stdout w) ∧ (length (sched w) < fuel)%nat).
  set (JAB := λ w : world,
         not_listening_yet (stdout w) ∨ connected_first (stdout w)).
  assert (HIA : ∀ w w', evolves w w' → IA w → IA w').
  { intros w1 w2 Hev [H1 H2]. split; [by eapply not_listening_yet_evolves|].
    destruct Hev as [_ Hev]. lia. }
  assert (HIB : ∀ w w', evolves w w' → IB w → IB w').
  { intros w1 w2 Hev [H1 H2]. split; [by eapply connected_first_evolves|].
    destruct Hev as [_ Hev]. lia. }
  assert (HJAB : ∀ w w', evolves w w' → JAB w → JAB w').
  { intros w1 w2 Hev [H|H]; [left|right];
      eauto using not_listening_yet_evolves, connected_first_evolves. }
  assert (HA : ∀ w, IA w → JAB w) by (intros ? [? _]; by left).
  assert (HB : ∀ w, IB w → JAB w) by (intros ? [? _]; by right).
  assert (Hmain : triple IA (main beh fuel) (λ _, JAB) (λ h w, JAB w ∧ h ≠ Diverged)).
  { unfold main.
    eapply triple_bind; [apply (quiet_triple IA JAB); [apply quiet_tick | done | done] | intros []].
    eapply triple_bind; [apply (quiet_triple IA JAB); [apply quiet_ret | done | done] | intros []].
    eapply triple_try_except_Exception
      with (Y := λ h w, JAB w ∧ h ≠ Diverged); try done.
    - unfold main_body.
      eapply triple_bind; [apply (quiet_triple IA JAB); [apply quiet_tick | done | done] | intros []].
      eapply triple_bind;
        [apply (quiet_triple IA JAB); [apply quiet_construct_client | done | done] | intros []].
      eapply triple_bind; [apply (quiet_triple IA JAB); [apply quiet_tick | done | done] | intros []].
      eapply triple_bind; [apply (quiet_triple IA JAB); [apply quiet_call | done | done] | intros []].
      eapply triple_bind; [apply (quiet_triple IA JAB); [apply quiet_tick | done | done] | intros []].
      eapply triple_bind with (R := λ _, IB).
      { intros w1 [H1 H2]. split; [|done]. by apply not_listening_yet_connected. }
      intros [].
      eapply triple_bind; [apply (quiet_triple IB JAB); [apply quiet_tick | done | done] | intros []].
      eapply triple_bind;
        [apply (quiet_triple IB JAB); [apply quiet_register_transcription | done | done] | intros []].
      eapply triple_bind; [apply (quiet_triple IB JAB); [apply quiet_tick | done | done] | intros []].
      eapply triple_bind;
        [apply (quiet_triple IB JAB); [apply quiet_register_error | done | done] | intros []].
      eapply triple_bind; [apply (quiet_triple IB JAB); [apply quiet_tick | done | done] | intros []].
      eapply triple_bind; [apply (quiet_triple IB JAB); [apply quiet_call | done | done] | intros []].
      eapply triple_bind; [apply (quiet_triple IB JAB); [apply quiet_tick | done | done] | intros []].
      eapply triple_bind; [apply (quiet_triple IB JAB); [apply quiet_call | done | done] | intros []].
      eapply triple_bind; [apply (quiet_triple IB JAB); [apply quiet_tick | done | done] | intros []].
      eapply triple_bind with (R := λ _, IB).
      { intros w1 [H1 H2]. split; [|done]. by apply connected_first_listening. }
      intros [] w1 [H1 H2]. generalize (keep_running_spec fuel w1 H1 H2).
      destruct (keep_running beh fuel w1) as [[[]|h] w2]; [done|].
      intros [? ?]. split; [by right | done].
    - intros e _.
      eapply triple_conseq;
        [apply (quiet_triple JAB JAB); [apply quiet_report_and_cleanup | done | done] | | | ];
        cbn; tauto. }
  specialize (Hmain w (conj Hw Hl)).
  assert (Hsound : ∀ w, JAB w → listening_after_connected (stdout w)).
  { intros w1 [H|[_ H]]; [by apply not_listening_yet_sound | done]. }
  destruct (main beh fuel w) as [[[]|h] w']; cbn [fst snd].
  - split; [by apply Hsound | done].
  - destruct Hmain as [? ?]. split; [by apply Hsound | congruence].
Qed.

(** Fuel: the loop of [run] is never cut short. *)
Lemma run_fuel_suffices evs : (run beh evs).1 ≠ OutOfFuel.
Proof.
  unfold run.
  destruct (main_spec (S (length evs)) (initial evs)) as [_ Hd];
    [by apply not_elem_of_nil | cbn; lia |].
  destruct (main beh (S (length evs)) (initial evs)) as [[[]|[[]| |]] w];
    cbn; try done.
Qed.

(** C6: in the output of every run, against every client and every
    schedule of signals, callbacks and steps, each "listening" status line
    has a "connected" status line somewhere before it. *)
Theorem listening_never_before_connected (evs : list env_event) :
  listening_after_connected (stdout (run beh evs).2).
Proof.
  unfold run.
  destruct (main_spec (S (length evs)) (initial evs)) as [Hl _];
    [by apply not_elem_of_nil | cbn; lia |].
  by destruct (main beh (S (length evs)) (initial evs)).
Qed.

End every_run.

(** ** The statements at work *)

Lemma cleanup_in_wait_does_not_exit_witness :
  run stop_fails (replicate 10 EvStep ++ [EvSignal SIGTERM])
  = (Running,
     World true [ready "connected"; ready "listening"]
       (startup_calls ++ shutdown_calls stop_fails (listening_world []))
       true true [] []).
Proof.
  apply (cleanup_in_wait_does_not_exit stop_fails SIGTERM). by repeat split.
Defined.

Lemma stop_listening_failure_does_not_exit_witness :
  run stop_fails_once (replicate 10 EvStep ++ [EvSignal SIGTERM])
  = (Running,
     World true [ready "connected"; ready "listening"]
       (startup_calls ++ [StopListening]) true true [] [])
  ∧ run stop_fails_once
      (replicate 10 EvStep ++ [EvSignal SIGTERM; EvStep; EvSignal SIGTERM])
    = (Running,
       World true [ready "connected"; ready "listening"]
         (startup_calls ++ [StopListening; StopListening; Disconnect])
         true true [] []).
Proof.
  apply (stop_listening_failure_does_not_exit stop_fails_once SIGTERM SIGTERM
           (Exc "RuntimeError" "not listening")).
  - by repeat split.
  - reflexivity.
  - reflexivity.
Defined.

Lemma signal_in_wait_is_swallowed_witness :
  run stop_fails (replicate 10 EvStep ++ [EvSignal SIGINT; EvTranscription hello_world])
  = (Running,
     World true
       [ready "connected"; ready "listening";
        [("type", PyStr "transcription"); ("text", PyStr "hello world");
         ("confidence", PyFloat 0x1.d70a3d70a3d71p-1%float);
         ("language", default (PyStr "en") (hello_world !! "language"));
         ("is_final", default (PyBool true) (hello_world !! "is_final"))]]
       (startup_calls ++ shutdown_calls stop_fails (listening_world []))
       true true [] []).
Proof.
  apply (signal_in_wait_is_swallowed stop_fails SIGINT hello_world
           (PyStr "hello world") (PyFloat 0x1.d70a3d70a3d71p-1%float));
    [by repeat split | reflexivity | reflexivity].
Defined.

Lemma on_error_reports_and_returns_witness :
  run all_good
    (replicate 10 EvStep ++ (EvError <$> [Exc "RuntimeError" "stream stalled"]))
  = (Running,
     World true
       ([ready "connected"; ready "listening"]
        ++ (error_line <$> [Exc "RuntimeError" "stream stalled"]))
       startup_calls true true [] []).
Proof.
  apply (on_error_reports_and_returns all_good (Exc "RuntimeError" "stream stalled")).
  by repeat split.
Defined.

Lemma signal_before_client_witness :
  (∀ sg w, client w = false →
     cleanup all_good sg w = (Halt (Raise (SystemExit 0)), w))
  ∧ run all_good (replicate 1 EvStep ++ EvSignal SIGTERM :: [EvStep])
    = (Exited 0, World false [] [] false false [] [EvStep]).
Proof. apply (signal_before_client all_good SIGTERM 1 [EvStep]). lia. Defined.

(** A start-up failure followed by a failing [stop_listening]: the error
    is reported, [disconnect] is never invoked, the process exits with
    status 0. *)
Lemma stop_listening_failure_at_startup :
  run unreachable_and_stuck []
  = (Exited 0,
     World true [error_line (Exc "ConnectionError" "backend unreachable")]
       [Construct; Connect; StopListening] false false [] []).
Proof. reflexivity. Qed.

(** The same signal one step earlier, at the head of the loop and outside
    its [try], does end the process. *)
Lemma signal_at_loop_head_exits :
  run all_good (replicate 9 EvStep ++ [EvSignal SIGTERM])
  = (Exited 0,
     World true [ready "connected"; ready "listening"]
       (startup_calls ++ [StopListening; Disconnect]) true true [] []).
Proof. reflexivity. Qed.

(** ** What the environment's turn changes *)

Section effects.

Variable beh : client_op → list client_op → option exn.

Lemma shutdown_calls_round w :
  shutdown_calls beh w = [] ∧ client w = false
  ∨ cleanup_round (shutdown_calls beh w) ∧ client w = true.
Proof.
  unfold shutdown_calls, cleanup_round. destruct (client w); [right|by left].
  destruct (beh StopListening (calls w)); auto.
Qed.

Lemma run_callback_on_transcription_line r w :
  run_callback (on_transcription r) w
  = World (client w)
      (stdout w ++ option_list (callback_line (EvTranscription r)))
      (calls w) (cb_transcription w) (cb_error w)
      (escaped w ++ match r !! "text", r !! "confidence" with
                    | Some _, Some _ => []
                    | Some _, None => [AttributeError "confidence"]
                    | None, _ => [AttributeError "text"]
                    end)
      (sched w).
Proof.
  unfold run_callback. rewrite on_transcription_spec. cbn [callback_line].
  destruct (r !! "text") as [t|]; [destruct (r !! "confidence") as [c|]|];
    cbn; by rewrite !app_nil_r.
Qed.

Lemma callback_line_event ev d : callback_line ev = Some d → event_line d.
Proof.
  destruct ev as [|s|r|e]; cbn; try done.
  - destruct (r !! "text") as [t|] eqn:Ht; [|done].
    destruct (r !! "confidence") as [c|] eqn:Hc; [|done].
    intros [= <-]. right. by exists r, t, c.
  - intros [= <-]. left. by exists e.
Qed.

(** The environment's turn: it writes event lines only, and none while no
    callback is registered; it leaves the client binding and the
    registrations alone; it invokes nothing on the client unless a signal
    ends it, and then what [cleanup] invokes. *)
Lemma poll_effects b evs : ∀ w,
  let r := poll beh b evs w in
  (∃ ds, stdout r.2 = stdout w ++ ds ∧ Forall event_line ds
         ∧ (cb_transcription w = false → cb_error w = false → ds = []))
  ∧ client r.2 = client w
  ∧ cb_transcription r.2 = cb_transcription w
  ∧ cb_error r.2 = cb_error w
  ∧ match r.1 with
    | Halt (Raise e) =>
        e = SystemExit 0 ∧ calls r.2 = calls w ++ shutdown_calls beh w
    | _ => calls r.2 = calls w
    end.
Proof.
  induction evs as [|ev evs IH]; intros w; cbv zeta.
  - rewrite poll_nil. repeat split; try by destruct b.
    exists []. by rewrite app_nil_r.
  - assert (Hkeep : ∀ w0 d,
      stdout w0 = stdout w ++ option_list d →
      (∀ d', d = Some d' → event_line d'
                           ∧ ¬ (cb_transcription w = false ∧ cb_error w = false)) →
      client w0 = client w → calls w0 = calls w →
      cb_transcription w0 = cb_transcription w → cb_error w0 = cb_error w →
      let r := poll beh b evs w0 in
      (∃ ds, stdout r.2 = stdout w ++ ds ∧ Forall event_line ds
             ∧ (cb_transcription w = false → cb_error w = false → ds = []))
      ∧ client r.2 = client w
      ∧ cb_transcription r.2 = cb_transcription w
      ∧ cb_error r.2 = cb_error w
      ∧ match r.1 with
        | Halt (Raise e) =>
            e = SystemExit 0 ∧ calls r.2 = calls w ++ shutdown_calls beh w
        | _ => calls r.2 = calls w
        end).
    { intros w0 d Hout Hd Hcl Hca Ht He. cbv zeta.
      destruct (IH w0) as ((ds & Hds & Hev & Hnone) & Hcl' & Ht' & He' & Ho).
      split.
      { exists (option_list d ++ ds). rewrite Hds, Hout, <- app_assoc.
        split; [done|]. split.
        - apply Forall_app. split; [|done].
          destruct d as [d'|]; [|constructor].
          constructor; [by apply Hd | constructor].
        - intros H1 H2. rewrite Hnone by congruence.
          destruct d as [d'|]; [|done]. by destruct (Hd d' eq_refl) as [_ []]. }
      split; [congruence|]. split; [congruence|]. split; [congruence|].
      assert (Hsh : shutdown_calls beh w0 = shutdown_calls beh w).
      { unfold shutdown_calls. by rewrite Hcl, Hca. }
      revert Ho. destruct (poll beh b evs w0).1 as [?|[?| |]]; congruence. }
    destruct ev as [|s|r|e].
    + rewrite poll_step. destruct b.
      * apply (Hkeep w None); try done. cbn. by rewrite app_nil_r.
      * cbn. repeat split; try done. exists []. by rewrite app_nil_r.
    + rewrite poll_signal. cbn. repeat split; try done.
      exists []. by rewrite app_nil_r.
    + rewrite poll_transcription.
      destruct (cb_transcription w) eqn:Hcbt.
      * rewrite run_callback_on_transcription_line.
        apply (Hkeep _ (callback_line (EvTranscription r))); try done.
        intros d' Hd'. split; [by eapply callback_line_event|]. by intros [? _].
      * apply (Hkeep w None); try done. cbn. by rewrite app_nil_r.
    + rewrite poll_error.
      destruct (cb_error w) eqn:Hcbe.
      * apply (Hkeep _ (Some (error_line e))); try done.
        intros d' [= <-]. split; [left; by exists e|]. by intros [_ ?].
      * apply (Hkeep w None); try done. cbn. by rewrite app_nil_r.
Qed.

End effects.

(** ** The shape of every run *)

Lemma calls_shape_take k : calls_shape (take k startup_calls).
Proof. exists k, []. by rewrite app_nil_r. Qed.

Lemma calls_shape_round cs ops :
  calls_shape cs → ops = [] ∨ cleanup_round ops → calls_shape (cs ++ ops).
Proof.
  intros (k & rounds & -> & Hr) [->|Hops].
  - rewrite app_nil_r. by exists k, rounds.
  - exists k, (rounds ++ [ops]). rewrite concat_app, app_assoc. cbn.
    rewrite app_nil_r. split; [done|]. apply Forall_app. split; [done|].
    by constructor.
Qed.

Lemma stage_out_app st out ds :
  st ≠ Silent → Forall event_line ds →
  stage_out st out → stage_out st (out ++ ds).
Proof.
  intros Hst Hds. destruct st; [done| |]; cbn.
  - intros (ds0 & -> & H0). exists (ds0 ++ ds). split; [done|].
    by apply Forall_app.
  - intros (ds1 & ds2 & -> & H1 & H2). exists ds1, (ds2 ++ ds).
    split; [cbn; by rewrite <- app_assoc|].
    split; [done|]. by apply Forall_app.
Qed.

Lemma stage_out_shape st out : stage_out st out → out_shape out.
Proof.
  destruct st; cbn.
  - by left.
  - intros ?. right. right. by left.
  - intros ?. right. right. by right.
Qed.

Lemma event_lines_no_ready ds status :
  Forall event_line ds → ready status ∉ ds.
Proof.
  intros Hds Hin. rewrite Forall_forall in Hds.
  by destruct (Hds _ Hin) as [(e & ?)|(r & t & c & _ & _ & ?)].
Qed.

Lemma linked_stage st k out tail :
  stage_out st out → (stage_calls st ≤ k)%nat →
  linked out (take k startup_calls ++ tail).
Proof.
  destruct st; cbn.
  - intros -> _. split; by intros ?%elem_of_nil.
  - intros (ds & -> & Hds) Hk. split.
    + intros _. exists (drop 2 (take k startup_calls) ++ tail).
      rewrite app_assoc. f_equal.
      rewrite <- (take_drop 2 (take k startup_calls)) at 1.
      by rewrite take_take, Nat.min_l.
    + intros [?|Hin]%elem_of_cons; [done|].
      by apply event_lines_no_ready in Hin.
  - intros (ds1 & ds2 & -> & H1 & H2) Hk.
    rewrite (take_ge startup_calls k) by (cbn; lia).
    split; intros _; [by exists (drop 2 startup_calls ++ tail) | by exists tail].
Qed.

Lemma linked_app out cs ds ops :
  Forall event_line ds → linked out cs → linked (out ++ ds) (cs ++ ops).
Proof.
  intros Hds [H1 H2].
  split; (intros [Hin|Hin]%elem_of_app;
            [apply prefix_app_r; auto | by apply event_lines_no_ready in Hin]).
Qed.

Section shape.

Variable beh : client_op → list client_op → option exn.

Lemma shutdown_calls_cases w :
  shutdown_calls beh w = [] ∨ cleanup_round (shutdown_calls beh w).
Proof. destruct (shutdown_calls_round beh w) as [[? _]|[? _]]; auto. Qed.

(** One turn of the environment at a point of the start-up. *)
Lemma tick_at_point fuel k cl ct ce st :
  (st = Silent → ct = false ∧ ce = false) →
  (stage_calls st ≤ k)%nat →
  triple (λ w, at_point k cl ct ce st w ∧ (length (sched w) < fuel)%nat)
    (tick beh)
    (λ _ w, at_point k cl ct ce st w ∧ (length (sched w) < fuel)%nat)
    (λ h w, h = Raise (SystemExit 0) ∧ body_halt beh h w).
Proof.
  intros Hst Hsk w [(Hk & Hcl & Hct & Hce & Hout) Hl]. unfold tick.
  generalize (poll_effects beh false (sched w) w).
  generalize (poll_spec beh false (sched w) w). cbv zeta.
  destruct (poll beh false (sched w) w) as [[[]|h] w1]; cbn [fst snd];
    intros (_ & Hlen & Ho) ((ds & Hds & Hev & Hnone) & Hcl1 & Hct1 & Hce1 & Hca).
  - split; [|lia]. repeat split; try congruence.
    rewrite Hds. destruct (decide (st = Silent)) as [->|Hne].
    + destruct (Hst eq_refl) as [-> ->]. rewrite Hnone by done.
      by rewrite app_nil_r.
    + by apply stage_out_app.
  - assert (Hstage : ∃ st', stage_out st' (stdout w1)
        ∧ (st' = Silent → cb_transcription w1 = false ∧ cb_error w1 = false)).
    { exists st. rewrite Hds. destruct (decide (st = Silent)) as [->|Hne].
      - destruct (Hst eq_refl) as [-> ->]. rewrite Hnone by done.
        rewrite app_nil_r. split; [done|]. intros _. split; congruence.
      - split; [by apply stage_out_app | done]. }
    destruct h as [e| |]; [|done|done].
    destruct Ho as [-> _]. destruct Hca as [_ Hca].
    split; [done|]. split.
    { rewrite Hca, Hk, Hds. apply linked_app; [done|].
      rewrite <- (app_nil_r (take k startup_calls)). by apply (linked_stage st). }
    split; [done|]. split; [|split; [done | by left]].
    rewrite Hca, Hk. apply calls_shape_round;
      auto using calls_shape_take, shutdown_calls_cases.
Qed.

(** One call of the start-up sequence at a point of the start-up. *)
Lemma call_at_point fuel k op cl ct ce st :
  startup_calls !! k = Some op →
  (st = Silent → ct = false ∧ ce = false) →
  (stage_calls st ≤ k)%nat →
  triple (λ w, at_point k cl ct ce st w ∧ (length (sched w) < fuel)%nat)
    (call beh op)
    (λ _ w, at_point (S k) cl ct ce st w ∧ (length (sched w) < fuel)%nat)
    (body_halt beh).
Proof.
  intros Hop Hst Hsk w [(Hk & Hcl & Hct & Hce & Hout) Hl]. unfold call.
  assert (Htake : calls w ++ [op] = take (S k) startup_calls).
  { rewrite Hk. by erewrite take_S_r. }
  destruct (beh op (calls w)) as [e|] eqn:He; cbn.
  - split.
    { rewrite Htake, <- (app_nil_r (take (S k) startup_calls)).
      apply (linked_stage st); [done | lia]. }
    split; [done|]. split; [rewrite Htake; apply calls_shape_take|].
    split; [|right; eauto].
    exists st. split; [done|]. intros Hs. destruct (Hst Hs); split; cbn; congruence.
  - by repeat split.
Qed.

(** The loop: it never returns, and it stops as a [try] body may. *)
Lemma keep_running_shape fuel : ∀ w,
  (∃ rounds, calls w = startup_calls ++ concat rounds
             ∧ Forall cleanup_round rounds) →
  client w = true →
  stage_out AfterListening (stdout w) →
  (length (sched w) < fuel)%nat →
  match keep_running beh fuel w with
  | (Ret _, _) => False
  | (Halt h, w') => body_halt beh h w'
  end.
Proof.
  induction fuel as [|fuel IH]; intros w (rounds & Hca & Hr) Hcl Hout Hl; [lia|].
  assert (Hshape : ∀ w' : world,
    calls w' = calls w ∨ calls w' = calls w ++ shutdown_calls beh w →
    ∃ rounds', calls w' = startup_calls ++ concat rounds'
               ∧ Forall cleanup_round rounds').
  { intros w' [->| ->]; [by exists rounds|].
    destruct (shutdown_calls_round beh w) as [[_ ?]|[Hround _]]; [congruence|].
    exists (rounds ++ [shutdown_calls beh w]).
    rewrite Hca, concat_app, <- app_assoc. cbn. rewrite app_nil_r.
    split; [done|]. apply Forall_app. split; [done|]. by constructor. }
  assert (Hhalt : ∀ h (w' : world),
    h ≠ Diverged →
    match h with Raise e => e = SystemExit 0 | _ => True end →
    (∃ rounds', calls w' = startup_calls ++ concat rounds'
                ∧ Forall cleanup_round rounds') →
    stage_out AfterListening (stdout w') → body_halt beh h w').
  { intros h w' Hd He (rounds' & Hca' & Hr') Hout'. split.
    { rewrite Hca'. by apply (linked_stage AfterListening 6). }
    split; [done|]. split.
    - exists 6%nat, rounds'. by rewrite Hca'.
    - split; [by exists AfterListening|]. destruct h; auto. }
  rewrite keep_running_S. unfold tick.
  generalize (poll_effects beh false (sched w) w).
  generalize (poll_spec beh false (sched w) w). cbv zeta.
  destruct (poll beh false (sched w) w) as [[[]|h] w1]; cbn [fst snd];
    intros (_ & Hlen & Ho) ((ds & Hds & Hev & _) & Hcl1 & _ & _ & Hca1).
  - assert (Hout1 : stage_out AfterListening (stdout w1)).
    { rewrite Hds. by apply stage_out_app. }
    unfold try_except, select.
    generalize (poll_effects beh true (sched w1) w1).
    generalize (poll_spec beh true (sched w1) w1). cbv zeta.
    destruct (poll beh true (sched w1) w1) as [[[]|[e| |]] w2]; cbn [fst snd];
      intros (_ & Hlen2 & Ho2) ((ds' & Hds' & Hev' & _) & Hcl2 & _ & _ & Hca2);
      try done.
    + destruct Ho2 as [_ Hlt]. destruct Hca2 as [_ Hca2].
      apply IH; [| congruence | rewrite Hds'; by apply stage_out_app | lia].
      apply Hshape. right. rewrite Hca2, Hca1.
      unfold shutdown_calls. by rewrite Hcl1, Hca1.
    + apply Hhalt; [done | done | | rewrite Hds'; by apply stage_out_app].
      apply Hshape. left. congruence.
  - destruct h as [e| |]; [|done|done]. destruct Ho as [-> _].
    destruct Hca1 as [_ Hca1].
    apply Hhalt; [done | done | | rewrite Hds; by apply stage_out_app].
    apply Hshape. by right.
Qed.

(** The [except] block: it always ends in [SystemExit(0)]. *)
Lemma report_and_cleanup_shape e w :
  linked (stdout w) (calls w) →
  calls_shape (calls w) →
  (∃ st, stage_out st (stdout w)
         ∧ (st = Silent → cb_transcription w = false ∧ cb_error w = false)) →
  ∃ w', report_and_cleanup beh e w = (Halt (Raise (SystemExit 0)), w')
        ∧ linked (stdout w') (calls w')
        ∧ calls_shape (calls w') ∧ out_shape (stdout w').
Proof.
  intros Hlk Hca (st & Hout & Hst). unfold report_and_cleanup.
  assert (Herr : event_line (error_line e)) by (left; by exists e).
  rewrite bind_apply. unfold tick at 1.
  generalize (poll_effects beh false (sched w) w).
  generalize (poll_spec beh false (sched w) w). cbv zeta.
  destruct (poll beh false (sched w) w) as [[[]|h] w1]; cbn [fst snd];
    intros (_ & _ & Ho) ((ds & Hds & Hev & Hnone) & _ & Hct1 & Hce1 & Hca1).
  - rewrite bind_apply. unfold write_line at 1. rewrite bind_apply.
    unfold tick. cbn [sched].
    match goal with |- context [poll beh false ?l ?w0] =>
      generalize (poll_effects beh false l w0);
      generalize (poll_spec beh false l w0); cbv zeta;
      destruct (poll beh false l w0) as [[[]|h] w2]; cbn [fst snd];
      intros (_ & _ & Ho2)
        ((ds' & Hds' & Hev' & Hnone') & Hcl2 & _ & _ & Hca2) end;
      cbn [stdout calls client cb_transcription cb_error] in *.
    + rewrite cleanup_spec. eexists. split; [done|]. cbn [calls stdout with_calls].
      split.
      { rewrite Hds', Hds, Hca2, Hca1, <- !app_assoc.
        apply linked_app; [|done]. apply Forall_app. split; [done|].
        by constructor. }
      split.
      * apply calls_shape_round; [congruence | apply shutdown_calls_cases].
      * rewrite Hds', Hds. destruct (decide (st = Silent)) as [->|Hne].
        -- destruct (Hst eq_refl) as [Ht He]. rewrite Hnone by done.
           rewrite Hnone' by congruence. cbn in Hout. rewrite Hout.
           right. left. by exists e.
        -- apply (stage_out_shape st).
           rewrite <- !app_assoc. apply stage_out_app; [done| |done].
           apply Forall_app. split; [done|].
           constructor; [left; by exists e | done].
    + destruct h as [e'| |]; [|done|done]. destruct Ho2 as [-> _].
      destruct Hca2 as [_ Hca2]. eexists. split; [done|]. split.
      { rewrite Hds', Hds, Hca2, Hca1, <- !app_assoc.
        apply linked_app; [|done]. apply Forall_app. split; [done|].
        by constructor. }
      split.
      * rewrite Hca2. apply calls_shape_round;
          [congruence | apply shutdown_calls_cases].
      * rewrite Hds', Hds. destruct (decide (st = Silent)) as [->|Hne].
        -- destruct (Hst eq_refl) as [Ht He]. rewrite Hnone by done.
           rewrite Hnone' by congruence. cbn in Hout. rewrite Hout.
           right. left. by exists e.
        -- apply (stage_out_shape st).
           rewrite <- !app_assoc. apply stage_out_app; [done| |done].
           apply Forall_app. split; [done|].
           constructor; [left; by exists e | done].
  - destruct h as [e'| |]; [|done|done]. destruct Ho as [-> _].
    destruct Hca1 as [_ Hca1]. eexists. split; [done|]. split.
    { rewrite Hds, Hca1. by apply linked_app. }
    split.
    + rewrite Hca1. apply calls_shape_round; [done | apply shutdown_calls_cases].
    + rewrite Hds. destruct (decide (st = Silent)) as [->|Hne].
      * destruct (Hst eq_refl) as [Ht He]. rewrite Hnone by done.
        rewrite app_nil_r. cbn in Hout. rewrite Hout. by left.
      * apply (stage_out_shape st). by apply stage_out_app.
Qed.

(** The [try] body from the start: it never returns. *)
Lemma main_body_shape fuel :
  triple (λ w, at_point 0 false false false Silent w
               ∧ (length (sched w) < fuel)%nat)
    (main_body beh fuel) (λ _ _, False) (body_halt beh).
Proof.
  assert (Htick : ∀ k cl ct ce st,
    (st = Silent → ct = false ∧ ce = false) →
    (stage_calls st ≤ k)%nat →
    triple (λ w, at_point k cl ct ce st w ∧ (length (sched w) < fuel)%nat)
      (tick beh)
      (λ _ w, at_point k cl ct ce st w ∧ (length (sched w) < fuel)%nat)
      (body_halt beh)).
  { intros k cl ct ce st Hst Hsk. eapply triple_conseq;
      [by apply (tick_at_point fuel k cl ct ce st) | done | done
      | by intros ?? [_ ?]]. }
  unfold main_body, construct_client, register_transcription, register_error.
  eapply triple_bind; [apply Htick; [done | cbn; lia] | intros []].
  eapply triple_bind.
  { eapply triple_bind; [apply call_at_point; [done | done | cbn; lia] | intros []].
    instantiate (1 := λ _ w, at_point 1 true false false Silent w
                             ∧ (length (sched w) < fuel)%nat).
    intros w [(? & ? & ? & ? & ?) ?]. by repeat split. }
  intros [].
  eapply triple_bind; [apply Htick; [done | cbn; lia] | intros []].
  eapply triple_bind; [apply call_at_point; [done | done | cbn; lia] | intros []].
  eapply triple_bind; [apply Htick; [done | cbn; lia] | intros []].
  eapply triple_bind.
  { instantiate (1 := λ _ w, at_point 2 true false false AfterConnected w
                             ∧ (length (sched w) < fuel)%nat).
    intros w [(? & ? & ? & ? & Hout) ?]. cbn in Hout. repeat split; try done.
    cbn. exists []. by rewrite Hout. }
  intros [].
  eapply triple_bind; [apply Htick; [done | cbn; lia] | intros []].
  eapply triple_bind.
  { eapply triple_bind; [apply call_at_point; [done | done | cbn; lia] | intros []].
    instantiate (1 := λ _ w, at_point 3 true true false AfterConnected w
                             ∧ (length (sched w) < fuel)%nat).
    intros w [(? & ? & ? & ? & ?) ?]. by repeat split. }
  intros [].
  eapply triple_bind; [apply Htick; [done | cbn; lia] | intros []].
  eapply triple_bind.
  { eapply triple_bind; [apply call_at_point; [done | done | cbn; lia] | intros []].
    instantiate (1 := λ _ w, at_point 4 true true true AfterConnected w
                             ∧ (length (sched w) < fuel)%nat).
    intros w [(? & ? & ? & ? & ?) ?]. by repeat split. }
  intros [].
  eapply triple_bind; [apply Htick; [done | cbn; lia] | intros []].
  eapply triple_bind; [apply call_at_point; [done | done | cbn; lia] | intros []].
  eapply triple_bind; [apply Htick; [done | cbn; lia] | intros []].
  eapply triple_bind; [apply call_at_point; [done | done | cbn; lia] | intros []].
  eapply triple_bind; [apply Htick; [done | cbn; lia] | intros []].
  eapply triple_bind.
  { instantiate (1 := λ _ w, at_point 6 true true true AfterListening w
                             ∧ (length (sched w) < fuel)%nat).
    intros w [(? & ? & ? & ? & (ds & Hout & Hds)) ?]. repeat split; try done.
    cbn. exists ds, []. by rewrite Hout. }
  intros [] w [(Hca & Hcl & _ & _ & Hout) Hl].
  apply keep_running_shape; try done.
  exists []. by rewrite Hca, app_nil_r.
Qed.

(** [main] from the start: it never returns; it is left by the
    [SystemExit(0)] of [cleanup] or by what the client raised past
    [except Exception], or it stays blocked. *)
Lemma main_shape fuel w :
  at_point 0 false false false Silent w →
  (length (sched w) < fuel)%nat →
  ∃ h w', main beh fuel w = (Halt h, w') ∧ main_halt beh h w'.
Proof.
  intros Hw Hl.
  assert (Hweak : ∀ h w', body_halt beh h w' →
    (∀ e, h = Raise e → is_Exception e = false) → main_halt beh h w').
  { intros h w' (Hlk & Hd & Hca & (st & Hout & _) & Hh) He.
    split; [done|]. split; [done|]. split; [done|].
    split; [by eapply stage_out_shape|].
    destruct h as [e| |]; [|done|done].
    destruct Hh as [->|Hh]; [by left|]. right. split; [|done]. by apply He. }
  unfold main. rewrite bind_apply.
  generalize (tick_at_point fuel 0 false false false Silent
                (λ _, conj eq_refl eq_refl) (le_n 0) w (conj Hw Hl)).
  destruct (tick beh w) as [[[]|h] w1].
  - intros [Hw1 Hl1]. rewrite bind_apply. unfold reopen_stdout at 1, ret at 1.
    unfold try_except_Exception.
    generalize (main_body_shape fuel w1 (conj Hw1 Hl1)).
    destruct (main_body beh fuel w1) as [[[]|h] w2]; [done|].
    intros Hb. destruct h as [e| |].
    + destruct (is_Exception e) eqn:He.
      * destruct Hb as (Hlk & _ & Hca & Hst & _).
        destruct (report_and_cleanup_shape e w2 Hlk Hca Hst)
          as (w3 & -> & ? & ? & ?).
        exists (Raise (SystemExit 0)), w3. split; [done|].
        split; [done|]. split; [done|]. split; [done|]. split; [done|].
        by left.
      * exists (Raise e), w2. split; [done|]. apply Hweak; [done|].
        by intros ? [= <-].
    + exists Blocked, w2. split; [done|]. by apply Hweak.
    + exists Diverged, w2. by destruct Hb as (_ & ? & _).
  - intros [-> Hb]. exists (Raise (SystemExit 0)), w1. split; [done|].
    apply Hweak; [done|]. by intros ? [= <-].
Qed.

(** Every run stops the way [main] can stop. *)
Lemma run_shape evs :
  ∃ h, (run beh evs).1 = status_of (Halt h) ∧ main_halt beh h (run beh evs).2.
Proof.
  unfold run.
  destruct (main_shape (S (length evs)) (initial evs)) as (h & w' & -> & Hh).
  - by repeat split.
  - cbn. lia.
  - by exists h.
Qed.

(** X1: in every run the call log is a prefix of the six start-up calls,
    in the order of [main], followed by rounds of [cleanup], each
    [stop_listening] alone or [stop_listening] then [disconnect]. *)
Theorem run_calls_shape (evs : list env_event) :
  calls_shape (calls (run beh evs).2).
Proof. by destruct (run_shape evs) as (h & _ & _ & _ & ? & _). Qed.

(** X2: in every run the output is empty, or a single error line, or the
    "connected" line followed by transcription and error lines with at most
    one "listening" line among them; every transcription line carries the
    text and the confidence of an event that has both. *)
Theorem run_out_shape (evs : list env_event) :
  out_shape (stdout (run beh evs).2).
Proof. by destruct (run_shape evs) as (h & _ & _ & _ & _ & ? & _). Qed.

(** X4: as long as the writes to standard output succeed (the reader
    keeps the pipe open, as this development takes it throughout), a run
    ends in one of three ways: the process is still running, or it has
    exited with status 0, or an exception that the client raised and that
    is no [Exception] has left [main].  Against a client that raises
    nothing but [Exception]s such a run never ends otherwise than with
    status 0. *)
Theorem run_status (evs : list env_event) :
  ((run beh evs).1 = Running
   ∨ (run beh evs).1 = Exited 0
   ∨ ∃ e op log, beh op log = Some e ∧ is_Exception e = false
                 ∧ (run beh evs).1 = status_of (Halt (Raise e)))
  ∧ (raises_only_Exceptions beh →
     (run beh evs).1 = Running ∨ (run beh evs).1 = Exited 0).
Proof.
  destruct (run_shape evs) as (h & -> & _ & Hd & _ & _ & Hh).
  destruct h as [e| |]; [|by split; [left|left]|done].
  destruct Hh as [->|(He & op & log & Hop)].
  - split; [right; by left | right; done].
  - split; [right; right; by exists e, op, log|].
    intros Honly. rewrite (Honly _ _ _ Hop) in He. done.
Qed.

(** X13: in every run the output never runs ahead of the client: a
    "connected" line means that the constructor and then [connect] were
    invoked, a "listening" line that all six start-up calls were, in the
    order of [main], before anything else was invoked on the client. *)
Theorem run_linked (evs : list env_event) :
  linked (stdout (run beh evs).2) (calls (run beh evs).2).
Proof. by destruct (run_shape evs) as (h & _ & ? & _). Qed.

End shape.

(** ** Status lines *)

Lemma event_line_ready d status : event_line d → d ≠ ready status.
Proof. by intros [(e & ->)|(r & t & c & _ & _ & ->)]. Qed.

Lemma event_lines_ready ds i status :
  Forall event_line ds → ds !! i ≠ Some (ready status).
Proof.
  intros Hds Hi. apply list_elem_of_lookup_2 in Hi.
  rewrite Forall_forall in Hds. by eapply event_line_ready; [apply Hds|].
Qed.

Lemma lookup_tail {A} (x : A) (l : list A) (i : nat) : (x :: l) !! S i = l !! i.
Proof. reflexivity. Qed.

Lemma lookup_ready_middle ds1 ds2 j status :
  Forall event_line ds1 → Forall event_line ds2 →
  (ds1 ++ ready "listening" :: ds2) !! j = Some (ready status) →
  j = length ds1 ∧ status = "listening".
Proof.
  intros H1 H2 Hj. destruct (decide (j < length ds1)%nat) as [Hlt|Hge].
  { rewrite lookup_app_l in Hj by done. by apply event_lines_ready in Hj. }
  rewrite lookup_app_r in Hj by lia.
  destruct (j - length ds1)%nat as [|m] eqn:Hm.
  - split; [lia|]. by injection Hj.
  - rewrite lookup_tail in Hj. by apply event_lines_ready in Hj.
Qed.

(** Where an output of the expected shape has its status lines. *)
Lemma out_shape_ready out i status :
  out_shape out → out !! i = Some (ready status) →
  i = 0%nat ∧ status = "connected"
  ∨ status = "listening"
    ∧ ∀ j, out !! j = Some (ready "listening") → j = i.
Proof.
  intros [->|[(e & ->)|[(ds & -> & Hds)|(ds1 & ds2 & -> & H1 & H2)]]] Hi.
  - done.
  - by destruct i as [|[]].
  - destruct i as [|i].
    + left. split; [done|]. by injection Hi.
    + rewrite lookup_tail in Hi. by apply event_lines_ready in Hi.
  - destruct i as [|i].
    + left. split; [done|]. by injection Hi.
    + right. rewrite lookup_tail in Hi.
      destruct (lookup_ready_middle _ _ _ _ H1 H2 Hi) as [-> ->].
      split; [done|]. intros [|j] Hj; [done|].
      rewrite lookup_tail in Hj.
      by destruct (lookup_ready_middle _ _ _ _ H1 H2 Hj) as [-> _].
Qed.

(** X3: in every run a "connected" status line is the first line of the
    output, and no status line is written twice. *)
Theorem run_status_lines beh (evs : list env_event) :
  (∀ i, stdout (run beh evs).2 !! i = Some (ready "connected") → i = 0%nat)
  ∧ (∀ status i j,
       stdout (run beh evs).2 !! i = Some (ready status) →
       stdout (run beh evs).2 !! j = Some (ready status) → i = j).
Proof.
  pose proof (run_out_shape beh evs) as Hshape. split.
  - intros i Hi. by destruct (out_shape_ready _ _ _ Hshape Hi) as [[? _]|[? _]].
  - intros status i j Hi Hj.
    destruct (out_shape_ready _ _ _ Hshape Hi) as [[-> ->]|[-> Huniq]].
    + by destruct (out_shape_ready _ _ _ Hshape Hj) as [[-> _]|[? _]].
    + symmetry. by apply Huniq.
Qed.

(** ** More on the handlers *)

(** X11: [cleanup] cannot fail: whatever [stop_listening] and
    [disconnect] do, it ends in [SystemExit(0)] and changes nothing but
    the call log.  With no client bound it invokes nothing; with a client
    bound it invokes [stop_listening], and [disconnect] exactly when
    [stop_listening] returned. *)
Theorem cleanup_always_exits beh sg (w : world) :
  ∃ ops,
    cleanup beh sg w = (Halt (Raise (SystemExit 0)), with_calls w ops)
    ∧ (client w = false ∧ ops = [] ∨ client w = true ∧ cleanup_round ops)
    ∧ (Disconnect ∈ ops ↔ client w = true ∧ beh StopListening (calls w) = None).
Proof.
  exists (shutdown_calls beh w). split; [apply cleanup_spec|].
  unfold shutdown_calls, cleanup_round.
  destruct (client w); [|split; [by left|]].
  - destruct (beh StopListening (calls w)) as [e|]; (split; [right; auto|]).
    + split; [|by intros [_ ?]].
      by intros [?|?%elem_of_nil]%elem_of_cons.
    + split; [done|]. intros _. apply elem_of_cons. right.
      by apply list_elem_of_singleton.
  - split; [by intros ?%elem_of_nil | by intros [? _]].
Qed.

(** X12: the transcription callback reads four attributes of the event
    and no other: an attribute under any other name changes neither what
    is written nor whether the callback raises. *)
Theorem on_transcription_ignores_other_attributes
    (r : result) (k : string) (v : pyval) (w : world) :
  k ∉ ["text"; "confidence"; "language"; "is_final"] →
  on_transcription (<[k := v]> r) w = on_transcription r w.
Proof.
  intros Hk. rewrite !on_transcription_spec.
  assert (∀ a, a ∈ ["text"; "confidence"; "language"; "is_final"] →
               <[k := v]> r !! a = r !! a) as Hsame.
  { intros a Ha. apply lookup_insert_ne. by intros ->. }
  rewrite !Hsame; [done | | | |]; set_solver.
Qed.

Lemma on_transcription_ignores_other_attributes_witness :
  on_transcription stamped (listening_world [])
  = on_transcription hello_world (listening_world []).
Proof.
  apply (on_transcription_ignores_other_attributes hello_world "timestamp"
           (PyInt 1700000000) (listening_world [])).
  intros H. repeat (apply elem_of_cons in H as [H|H]; [discriminate H|]).
  by apply elem_of_nil in H.
Defined.

(** ** More runs *)

Section more_runs.

Variable beh : client_op → list client_op → option exn.

(** Callback events alone: every one is handled, in the order of
    delivery; a result without text or confidence costs an exception that
    goes back to the client and nothing else. *)
Lemma poll_callbacks b evs : ∀ w,
  cb_transcription w = true → cb_error w = true →
  forallb is_callback evs = true →
  ∃ es, poll beh b evs w
        = (if b then Halt Blocked else Ret (),
           World (client w) (stdout w ++ omap callback_line evs) (calls w)
             true true (escaped w ++ es) []).
Proof.
  induction evs as [|[|s|r|e] evs IH]; intros w Ht He Hcb; try done.
  - exists []. rewrite poll_nil. cbn. rewrite !app_nil_r.
    destruct w; cbn in *; by subst.
  - rewrite poll_transcription, Ht, run_callback_on_transcription_line.
    match goal with |- context [poll beh b evs ?w0] =>
      destruct (IH w0) as (es & ->); [done | done | done |] end.
    cbn [client stdout calls escaped].
    exists (match r !! "text", r !! "confidence" with
            | Some _, Some _ => []
            | Some _, None => [AttributeError "confidence"]
            | None, _ => [AttributeError "text"]
            end ++ es).
    rewrite <- !app_assoc. cbn [omap list_omap callback_line].
    by destruct (r !! "text"), (r !! "confidence").
  - rewrite poll_error, He.
    destruct (IH (with_lines w [error_line e])) as (es & ->); [done..|].
    exists es. cbn. by rewrite <- app_assoc.
Qed.

(** X7: once the bridge listens, the callback events that follow are
    written in the order of their delivery, one line for each error and
    for each result that has a text and a confidence and none for the
    others; nothing is invoked on the client and the process keeps
    running. *)
Theorem callbacks_in_order (evs : list env_event) :
  startup_succeeds beh →
  forallb is_callback evs = true →
  (run beh (replicate 10 EvStep ++ evs)).1 = Running
  ∧ stdout (run beh (replicate 10 EvStep ++ evs)).2
    = [ready "connected"; ready "listening"] ++ omap callback_line evs
  ∧ calls (run beh (replicate 10 EvStep ++ evs)).2 = startup_calls.
Proof.
  intros Hs Hcb. unfold run.
  change (replicate 10 EvStep ++ evs) with (replicate 9 EvStep ++ EvStep :: evs).
  rewrite (main_listening _ _ _ Hs).
  unfold try_except_Exception. rewrite length_app. cbn [length replicate Nat.add].
  rewrite keep_running_S. unfold tick, select, try_except.
  cbn [sched listening_world]. rewrite poll_step. cbn [sched with_sched].
  match goal with |- context [poll beh true evs ?w0] =>
    destruct (poll_callbacks true evs w0) as (es & ->); [done..|] end.
  done.
Qed.

(** *** Runs that nothing disturbs *)

Lemma tick_steps n w :
  sched w = replicate n EvStep →
  tick beh w = (Ret (), with_sched w (replicate (pred n) EvStep)).
Proof. intros Hs. unfold tick. rewrite Hs. by destruct n. Qed.

Lemma select_steps n w :
  sched w = replicate n EvStep → select beh w = (Halt Blocked, with_sched w []).
Proof.
  intros Hs. unfold select. rewrite Hs. clear Hs.
  induction n as [|n IH]; [done|]. cbn [replicate]. by rewrite poll_step.
Qed.

Lemma keep_running_steps n fuel w :
  sched w = replicate n EvStep →
  keep_running beh (S fuel) w = (Halt Blocked, with_sched w []).
Proof.
  intros Hs. rewrite keep_running_S, (tick_steps n) by done.
  unfold try_except. by rewrite (select_steps (pred n)).
Qed.

Ltac world_norm :=
  cbn [client stdout calls cb_transcription cb_error escaped sched
       with_sched with_lines with_calls app].

Ltac tick_step :=
  rewrite ?bind_apply; erewrite tick_steps by reflexivity;
  world_norm; cbv beta iota.

Ltac call_step H :=
  rewrite ?bind_apply; unfold call at 1; world_norm; rewrite H;
  world_norm; cbv beta iota.

Ltac write_step :=
  rewrite ?bind_apply; unfold write_line at 1; world_norm; cbv beta iota.

Ltac set_step :=
  rewrite ?bind_apply;
  first [unfold set_client at 1 | unfold set_cb_transcription at 1
        | unfold set_cb_error at 1];
  world_norm; cbv beta iota.

(** The [try] body when the [k]-th start-up call raises. *)
Lemma main_body_fails_at k e n fuel :
  fails_at beh k e →
  ∃ m, main_body beh fuel (World false [] [] false false [] (replicate n EvStep))
       = (Halt (Raise e), failure_world k m).
Proof.
  intros [Hpre (op & Hop & He)].
  assert (H0 : (0 < k)%nat → beh Construct [] = None)
    by (intros; by apply (Hpre 0%nat)).
  assert (H1 : (1 < k)%nat → beh Connect [Construct] = None)
    by (intros; by apply (Hpre 1%nat)).
  assert (H2 : (2 < k)%nat → beh OnTranscription [Construct; Connect] = None)
    by (intros; by apply (Hpre 2%nat)).
  assert (H3 : (3 < k)%nat →
               beh OnError [Construct; Connect; OnTranscription] = None)
    by (intros; by apply (Hpre 3%nat)).
  assert (H4 : (4 < k)%nat →
               beh Subscribe [Construct; Connect; OnTranscription; OnError] = None)
    by (intros; by apply (Hpre 4%nat)).
  clear Hpre. unfold main_body, construct_client, register_transcription,
    register_error, failure_world.
  destruct k as [|[|[|[|[|[|k]]]]]]; [..|done];
    injection Hop as <-; cbn [take startup_calls] in He;
    try specialize (H0 ltac:(lia)); try specialize (H1 ltac:(lia));
    try specialize (H2 ltac:(lia)); try specialize (H3 ltac:(lia));
    try specialize (H4 ltac:(lia)); eexists.
  - tick_step. call_step He. reflexivity.
  - tick_step. call_step H0. set_step.
    tick_step. call_step He. reflexivity.
  - tick_step. call_step H0. set_step.
    tick_step. call_step H1. tick_step. write_step.
    tick_step. call_step He. reflexivity.
  - tick_step. call_step H0. set_step.
    tick_step. call_step H1. tick_step. write_step.
    tick_step. call_step H2. set_step.
    tick_step. call_step He. reflexivity.
  - tick_step. call_step H0. set_step.
    tick_step. call_step H1. tick_step. write_step.
    tick_step. call_step H2. set_step.
    tick_step. call_step H3. set_step.
    tick_step. call_step He. reflexivity.
  - tick_step. call_step H0. set_step.
    tick_step. call_step H1. tick_step. write_step.
    tick_step. call_step H2. set_step.
    tick_step. call_step H3. set_step.
    tick_step. call_step H4. tick_step. call_step He. reflexivity.
Qed.

(** The [except] block when nothing disturbs it. *)
Lemma report_and_cleanup_steps e w n :
  sched w = replicate n EvStep →
  report_and_cleanup beh e w
  = (Halt (Raise (SystemExit 0)),
     with_calls
       (with_sched (with_lines w [error_line e]) (replicate (pred (pred n)) EvStep))
       (shutdown_calls beh w)).
Proof.
  intros Hs. unfold report_and_cleanup.
  rewrite bind_apply, (tick_steps n) by done.
  write_step. tick_step. by rewrite cleanup_spec.
Qed.

(** [main] when the [k]-th start-up call raises and nothing disturbs the
    run. *)
Lemma main_fails_at k e n fuel :
  fails_at beh k e →
  ∃ m, main beh fuel (initial (replicate n EvStep))
       = if is_Exception e
         then report_and_cleanup beh e (failure_world k m)
         else (Halt (Raise e), failure_world k m).
Proof.
  intros Hf. unfold main, initial. tick_step.
  rewrite ?bind_apply. unfold reopen_stdout at 1, ret at 1. cbv beta iota.
  unfold try_except_Exception, with_sched. world_norm.
  destruct (main_body_fails_at k e (pred n) fuel Hf) as (m & ->).
  exists m. by destruct (is_Exception e).
Qed.

(** X8: when the [k]-th call of the start-up sequence raises an
    [Exception] and nothing disturbs the run, the process exits with
    status 0; the output is the "connected" line if [connect] had returned,
    then the error line; the client has seen the calls up to the failing
    one and then, unless the constructor itself failed, [stop_listening]
    followed by [disconnect] if [stop_listening] returned. *)
Theorem startup_failure_reported (k n : nat) (e : exn) :
  fails_at beh k e →
  is_Exception e = true →
  (run beh (replicate n EvStep)).1 = Exited 0
  ∧ stdout (run beh (replicate n EvStep)).2
    = (if (2 <=? k)%nat then [ready "connected"] else []) ++ [error_line e]
  ∧ calls (run beh (replicate n EvStep)).2
    = take (S k) startup_calls
      ++ (if (1 <=? k)%nat
          then match beh StopListening (take (S k) startup_calls) with
               | Some _ => [StopListening]
               | None => [StopListening; Disconnect]
               end
          else []).
Proof.
  intros Hf He. unfold run.
  destruct (main_fails_at k e n (S (length (replicate n EvStep))) Hf) as (m & ->).
  rewrite He, (report_and_cleanup_steps e _ m) by done.
  unfold failure_world, shutdown_calls. cbn. by destruct (1 <=? k)%nat.
Qed.

(** The exit status is the code itself for the codes a parent can tell
    apart; [sys.exit(256)] is seen as 0 and [sys.exit(-1)] as 255. *)
Lemma exit_status_byte (code : Z) :
  (0 ≤ code < 256)%Z → exit_status code = code.
Proof.
  intros Hc. unfold exit_status.
  rewrite (proj2 (Z.leb_le _ _)), (proj2 (Z.ltb_lt _ _)) by lia.
  cbn [andb]. apply Z.mod_small. lia.
Qed.

Lemma exit_status_range (code : Z) : (0 ≤ exit_status code < 256)%Z.
Proof.
  unfold exit_status.
  destruct ((- 2 ^ 63 <=? code) && (code <? 2 ^ 63))%Z; [|lia].
  apply Z.mod_pos_bound. lia.
Qed.

Lemma exit_status_wraps :
  exit_status 256 = 0%Z ∧ exit_status (-1) = 255%Z ∧ exit_status (2 ^ 64) = 255%Z.
Proof. by vm_compute. Qed.

(** X9: when the [k]-th call of the start-up sequence raises what is no
    [Exception] and nothing disturbs the run, the exception leaves [main]:
    no error line is written, [cleanup] does not run, and the process ends
    with the status of that exception: for a [SystemExit] its code as the
    system reduces it ([exit_status]: the low eight bits, so 256 gives 0
    and -1 gives 255), for anything else a traceback. *)
Theorem startup_escape (k n : nat) (e : exn) :
  fails_at beh k e →
  is_Exception e = false →
  (run beh (replicate n EvStep)).1
    = match e with
      | SystemExit code => Exited (exit_status code)
      | _ => Crashed e
      end
  ∧ stdout (run beh (replicate n EvStep)).2
    = (if (2 <=? k)%nat then [ready "connected"] else [])
  ∧ calls (run beh (replicate n EvStep)).2 = take (S k) startup_calls.
Proof.
  intros Hf He. unfold run.
  destruct (main_fails_at k e n (S (length (replicate n EvStep))) Hf) as (m & ->).
  rewrite He. by destruct e.
Qed.

(** X10: a start-up in which every call returns and which nothing
    disturbs writes the "connected" line and the "listening" line and
    nothing else, makes the six calls in order, registers both callbacks,
    and leaves the process waiting. *)
Theorem undisturbed_startup (n : nat) :
  startup_succeeds beh →
  run beh (replicate n EvStep) = (Running, listening_world []).
Proof.
  intros (H0 & H1 & H2 & H3 & H4 & H5). unfold run, main, initial.
  tick_step. rewrite ?bind_apply. unfold reopen_stdout at 1, ret at 1.
  cbv beta iota.
  unfold try_except_Exception, main_body, construct_client,
    register_transcription, register_error.
  tick_step. call_step H0. set_step.
  tick_step. call_step H1.
  tick_step. write_step.
  tick_step. call_step H2. set_step.
  tick_step. call_step H3. set_step.
  tick_step. call_step H4.
  tick_step. call_step H5.
  tick_step. write_step.
  by erewrite keep_running_steps by reflexivity.
Qed.

(** *** Signals, again and again *)

Lemma length_signals_in_wait s k : length (signals_in_wait s k) = (2 * k)%nat.
Proof.
  induction k as [|k IH]; [done|].
  change (signals_in_wait s (S k))
    with (EvStep :: EvSignal s :: signals_in_wait s k).
  cbn [length]. lia.
Qed.

Lemma stops_shutdown_calls w :
  client w = true → stops (shutdown_calls beh w) = 1%nat.
Proof.
  intros Hc. unfold shutdown_calls. rewrite Hc.
  by destruct (beh StopListening (calls w)).
Qed.

Lemma keep_running_signals s k : ∀ fuel w,
  client w = true →
  (k < fuel)%nat →
  sched w = signals_in_wait s k →
  ∃ w', keep_running beh fuel w = (Halt Blocked, w')
        ∧ stdout w' = stdout w
        ∧ stops (calls w') = (stops (calls w) + k)%nat.
Proof.
  induction k as [|k IH]; intros fuel w Hc Hf Hs;
    (destruct fuel as [|fuel]; [lia|]).
  - exists w. rewrite keep_running_blocked by done. split; [done|].
    split; [done | lia].
  - rewrite keep_running_S. unfold tick. rewrite Hs.
    cbn [signals_in_wait replicate concat app]. rewrite poll_step.
    fold (signals_in_wait s k).
    change (with_sched w (EvSignal s :: signals_in_wait s k))
      with (with_sched (with_sched w []) (EvSignal s :: signals_in_wait s k)).
    rewrite select_swallows_signal.
    match goal with |- context [keep_running beh fuel ?w0] =>
      destruct (IH fuel w0) as (w' & -> & Hout & Hstops);
        [done | lia | done |] end.
    exists w'. split; [done|]. split; [done|].
    rewrite Hstops. cbn [calls with_calls with_sched].
    unfold stops at 1. rewrite filter_app, length_app.
    fold (stops (calls w)).
    change (length (filter _ (shutdown_calls beh (with_sched w []))))
      with (stops (shutdown_calls beh (with_sched w []))).
    rewrite stops_shutdown_calls by done. lia.
Qed.

(** X6: however many termination signals arrive, each while the main
    thread waits in [select.select], the process keeps running and writes
    nothing; every one of them invokes [stop_listening] on the client
    again. *)
Theorem signals_in_wait_never_exit (s : signum) (k : nat) :
  startup_succeeds beh →
  (run beh (replicate 9 EvStep ++ signals_in_wait s k)).1 = Running
  ∧ stdout (run beh (replicate 9 EvStep ++ signals_in_wait s k)).2
    = [ready "connected"; ready "listening"]
  ∧ stops (calls (run beh (replicate 9 EvStep ++ signals_in_wait s k)).2) = k.
Proof.
  intros Hs. unfold run. rewrite (main_listening _ _ _ Hs).
  unfold try_except_Exception.
  match goal with |- context [keep_running beh ?fuel ?w0] =>
    destruct (keep_running_signals s k fuel w0) as (w' & -> & Hout & Hstops);
      [done | | done |] end.
  { rewrite length_app, length_signals_in_wait. lia. }
  cbn [fst snd status_of]. by rewrite Hout, Hstops.
Qed.

(** *** A signal during the start-up *)

Ltac literal_world :=
  unfold with_sched, with_calls, with_lines;
  cbn [client stdout calls cb_transcription cb_error escaped sched app
       is_Exception status_of fst snd].

Ltac next_step :=
  rewrite ?bind_apply;
  lazymatch goal with
  | |- context [tick beh (World _ _ _ _ _ _ (EvStep :: _))] =>
      unfold tick at 1; cbn [sched]; rewrite poll_step
  | |- context [tick beh (World _ _ _ _ _ _ (EvSignal _ :: _))] =>
      unfold tick at 1; cbn [sched]; rewrite poll_signal
  | |- context [call beh ?op (World _ _ ?log _ _ _ _)] =>
      unfold call at 1; cbn [calls];
      match goal with H : beh op log = None |- _ => rewrite H end
  | |- context [write_line _ (World _ _ _ _ _ _ _)] => unfold write_line at 1
  | |- context [set_client _ (World _ _ _ _ _ _ _)] => unfold set_client at 1
  | |- context [set_cb_transcription _ (World _ _ _ _ _ _ _)] =>
      unfold set_cb_transcription at 1
  | |- context [set_cb_error _ (World _ _ _ _ _ _ _)] =>
      unfold set_cb_error at 1
  | |- context [reopen_stdout (World _ _ _ _ _ _ _)] =>
      unfold reopen_stdout at 1, ret at 1
  | |- context [keep_running beh (S _) (World _ _ _ _ _ _ _)] =>
      rewrite keep_running_S
  end;
  literal_world; cbv beta iota.

(** X5: a termination signal that arrives during the start-up, at any
    point up to the head of the waiting loop, ends the process with status
    0.  What has been written by then stays: "connected" from the fourth
    step of the main thread on, "listening" at the ninth; [cleanup] has
    invoked [stop_listening] once if the client was constructed, and
    nothing otherwise. *)
Theorem signal_during_startup_exits (s : signum) (n : nat) (rest : list env_event) :
  startup_succeeds beh →
  (n ≤ 9)%nat →
  (run beh (replicate n EvStep ++ EvSignal s :: rest)).1 = Exited 0
  ∧ stdout (run beh (replicate n EvStep ++ EvSignal s :: rest)).2
    = (if (4 <=? n)%nat then [ready "connected"] else [])
      ++ (if (9 <=? n)%nat then [ready "listening"] else [])
  ∧ stops (calls (run beh (replicate n EvStep ++ EvSignal s :: rest)).2)
    = (if (2 <=? n)%nat then 1 else 0)%nat.
Proof.
  intros (H0 & H1 & H2 & H3 & H4 & H5) Hn.
  assert (∃ w, run beh (replicate n EvStep ++ EvSignal s :: rest) = (Exited 0, w)
               ∧ stdout w
                 = (if (4 <=? n)%nat then [ready "connected"] else [])
                   ++ (if (9 <=? n)%nat then [ready "listening"] else [])
               ∧ stops (calls w) = (if (2 <=? n)%nat then 1 else 0)%nat)
    as (w & -> & ? & ?); [|done].
  unfold startup_calls in *.
  unfold run, main, main_body, construct_client, register_transcription,
    register_error, try_except_Exception, initial.
  do 10 (destruct n as [|n];
    [ cbn [replicate app]; eexists; split;
      [ repeat next_step; reflexivity
      | split; [reflexivity|];
        unfold stops, shutdown_calls; cbn [client calls];
        try destruct (beh StopListening _); reflexivity ]
    | ]).
  lia.
Qed.

End more_runs.

Lemma callbacks_in_order_witness :
  let evs := [EvTranscription hello_world; EvError (Exc "RuntimeError" "stream stalled");
              EvTranscription text_only] in
  (run all_good (replicate 10 EvStep ++ evs)).1 = Running
  ∧ stdout (run all_good (replicate 10 EvStep ++ evs)).2
    = [ready "connected"; ready "listening"] ++ omap callback_line evs
  ∧ calls (run all_good (replicate 10 EvStep ++ evs)).2 = startup_calls.
Proof.
  apply (callbacks_in_order all_good
           [EvTranscription hello_world;
            EvError (Exc "RuntimeError" "stream stalled");
            EvTranscription text_only]);
    [by repeat split | reflexivity].
Defined.

Lemma startup_failure_reported_witness :
  (run no_subscription (replicate 0 EvStep)).1 = Exited 0
  ∧ stdout (run no_subscription (replicate 0 EvStep)).2
    = [ready "connected"] ++ [error_line (Exc "RuntimeError" "subscription refused")]
  ∧ calls (run no_subscription (replicate 0 EvStep)).2
    = take 5 startup_calls ++ [StopListening; Disconnect].
Proof.
  apply (startup_failure_reported no_subscription 4 0
           (Exc "RuntimeError" "subscription refused")); [|reflexivity].
  split.
  - intros j op Hj Hop.
    destruct j as [|[|[|[|j]]]]; [..|lia]; by injection Hop as <-.
  - by exists Subscribe.
Defined.

Lemma startup_escape_witness :
  (run exits_in_constructor (replicate 0 EvStep)).1 = Exited 3
  ∧ stdout (run exits_in_constructor (replicate 0 EvStep)).2 = []
  ∧ calls (run exits_in_constructor (replicate 0 EvStep)).2 = take 1 startup_calls.
Proof.
  apply (startup_escape exits_in_constructor 0 0 (SystemExit 3)); [|reflexivity].
  split; [intros j op Hj; lia | by exists Construct].
Defined.

Lemma undisturbed_startup_witness :
  run stop_fails (replicate 3 EvStep) = (Running, listening_world []).
Proof. apply (undisturbed_startup stop_fails 3). by repeat split. Defined.

Lemma signals_in_wait_never_exit_witness :
  (run stop_fails (replicate 9 EvStep ++ signals_in_wait SIGTERM 3)).1 = Running
  ∧ stdout (run stop_fails (replicate 9 EvStep ++ signals_in_wait SIGTERM 3)).2
    = [ready "connected"; ready "listening"]
  ∧ stops (calls (run stop_fails (replicate 9 EvStep ++ signals_in_wait SIGTERM 3)).2)
    = 3%nat.
Proof.
  apply (signals_in_wait_never_exit stop_fails SIGTERM 3). by repeat split.
Defined.

Lemma signal_during_startup_exits_witness :
  (run stop_fails (replicate 5 EvStep ++ EvSignal SIGINT :: [EvStep])).1 = Exited 0
  ∧ stdout (run stop_fails (replicate 5 EvStep ++ EvSignal SIGINT :: [EvStep])).2
    = [ready "connected"] ++ []
  ∧ stops (calls (run stop_fails (replicate 5 EvStep ++ EvSignal SIGINT :: [EvStep])).2)
    = 1%nat.
Proof.
  apply (signal_during_startup_exits stop_fails SIGINT 5 [EvStep]);
    [by repeat split | lia].
Defined.

Lemma run_status_witness :
  (run unreachable [EvStep; EvSignal SIGINT]).1 = Running
  ∨ (run unreachable [EvStep; EvSignal SIGINT]).1 = Exited 0.
Proof.
  apply (proj2 (run_status unreachable [EvStep; EvSignal SIGINT])).
  intros op log e. unfold unreachable.
  destruct (decide (op = Connect)); [|discriminate].
  intros [= <-]. reflexivity.
Defined.

Lemma run_status_lines_witness :
  let out := stdout (run all_good (replicate 10 EvStep ++ [EvError KeyboardInterrupt])).2 in
  out !! 1%nat = Some (ready "listening")
  ∧ ∀ j, out !! j = Some (ready "listening") → 1%nat = j.
Proof.
  split; [reflexivity|]. intros j Hj.
  apply (proj2 (run_status_lines all_good
                  (replicate 10 EvStep ++ [EvError KeyboardInterrupt]))
           "listening" 1%nat j); [reflexivity | exact Hj].
Defined.
